(** * wb-rules: the rule engine of [wbrules/rule.go] and the script
    runtime of [scripts/lib.js], embedded in Rocq.

    The Go side is written in a small state-and-output monad [Go]: the
    state is the [RuleEngine] struct together with the heap of [Rule]
    objects it points to, the output is the list of callbacks the code
    invokes and of messages it logs, and a Go runtime panic ends the
    computation.  Script callables are opaque: what a callable does when
    it is invoked is given by a [ScriptHost].  *)

From Stdlib Require Import ZArith Lia Ascii.
From stdpp Require Import base option list strings gmap.

Open Scope Z_scope.

(** ** Values *)

(** Go's [interface{}] as the cell model hands it out: nil, a boolean, a
    number or a string.  Numbers are kept integral; the engine only
    passes them on. *)
Inductive Value :=
| VNil
| VBool (b : bool)
| VNum (n : Z)
| VStr (s : string).

(** Values on the duktape stack. *)
#[local] Set Warnings "-register-all".
Inductive JSValue :=
| JSUndefined
| JSNull
| JSBool (b : bool)
| JSNum (n : Z)
| JSStr (s : string)
| JSFunc (f : nat)
| JSArray (items : list JSValue)
| JSObject (props : list (string * JSValue)).
#[local] Set Warnings "register-all".

(** [ctx.ToBoolean] *)
Definition ToBoolean (v : JSValue) : bool :=
  match v with
  | JSUndefined | JSNull => false
  | JSBool b => b
  | JSNum n => negb (n =? 0)
  | JSStr s => negb (String.eqb s "")
  | JSFunc _ | JSArray _ | JSObject _ => true
  end.

Definition IsString (v : JSValue) : bool :=
  match v with JSStr _ => true | _ => false end.
Definition IsObject (v : JSValue) : bool :=
  match v with JSFunc _ | JSArray _ | JSObject _ => true | _ => false end.

Fixpoint lookupProp (props : list (string * JSValue)) (k : string) : option JSValue :=
  match props with
  | [] => None
  | (k', v) :: rest => if String.eqb k k' then Some v else lookupProp rest k
  end.

(** [ctx.HasPropString] and [ctx.GetPropString] on the value at a stack index. *)
Definition HasPropString (obj : JSValue) (k : string) : bool :=
  match obj with
  | JSObject props => bool_decide (is_Some (lookupProp props k))
  | _ => false
  end.

Definition GetPropString (obj : JSValue) (k : string) : JSValue :=
  match obj with
  | JSObject props => default JSUndefined (lookupProp props k)
  | _ => JSUndefined
  end.

(** Modelled from the spec: [StringArrayToGo] is not part of the sources at
    hand.  The value of [onCellChange] is "a single cell reference string or
    a non-empty list of them"; a script array yields its strings, anything
    else the empty slice. *)
Definition StringArrayToGo (v : JSValue) : list string :=
  match v with
  | JSArray items =>
      omap (λ x, match x with JSStr s => Some s | _ => None end) items
  | _ => []
  end.

(** [strings.SplitN(s, "/", 2)]: [None] when the result has one part. *)
Fixpoint splitSlash (s : string) : option (string * string) :=
  match s with
  | EmptyString => None
  | String c rest =>
      if Ascii.eqb c "/"%char then Some (EmptyString, rest)
      else match splitSlash rest with
           | Some (a, b) => Some (String c a, b)
           | None => None
           end
  end.

(** ** Cells *)

(** Modelled from the spec: the cell model ([CellModel], [Cell]) is an
    external collaborator.  A cell's "identity is (deviceName, name)"; it
    has a current value and is complete "once at least one value has been
    observed from the bus".  A [*Cell] is represented by that identity, and
    a cell the model has never heard of is incomplete. *)
Abbreviation Cell := (string * string)%type.

Record CellData := mkCellData {
  cellComplete : bool;
  cellValue : Value
}.

Record CellSpec := mkCellSpec {
  DevName_ : string;
  CellName_ : string
}.

(** ** Rules *)

Abbreviation esCallback := Z.

Definition esCallback_modulus : Z := 2 ^ 64.

Definition NO_CALLBACK : esCallback := 0.

(** The constants of the [const] block: [iota] counts the specs of the
    block, and [RULE_TYPE_NONE] is its seventh. *)
Definition RULE_TYPE_NONE : Z := 6.
Definition RULE_TYPE_LEVEL_TRIGGERED : Z := 7.
Definition RULE_TYPE_EDGE_TRIGGERED : Z := 8.
Definition RULE_TYPE_ON_CELL_CHANGE : Z := 9.

(** A [*Rule]: an address in the heap of rule objects. *)
Abbreviation RulePtr := nat.

Record Rule := mkRule {
  name : string;
  cond : esCallback;
  then_ : esCallback;
  onCellChange : list Cell;
  ruleType : Z;
  firstRun : bool;
  prevCondValue : bool;
  oldCellValue : Value;
  shouldCheck : bool
}.

Definition set_cond (v : esCallback) (r : Rule) : Rule :=
  mkRule (name r) v (then_ r) (onCellChange r) (ruleType r) (firstRun r)
         (prevCondValue r) (oldCellValue r) (shouldCheck r).
Definition set_then (v : esCallback) (r : Rule) : Rule :=
  mkRule (name r) (cond r) v (onCellChange r) (ruleType r) (firstRun r)
         (prevCondValue r) (oldCellValue r) (shouldCheck r).
Definition set_onCellChange (v : list Cell) (r : Rule) : Rule :=
  mkRule (name r) (cond r) (then_ r) v (ruleType r) (firstRun r)
         (prevCondValue r) (oldCellValue r) (shouldCheck r).
Definition set_ruleType (v : Z) (r : Rule) : Rule :=
  mkRule (name r) (cond r) (then_ r) (onCellChange r) v (firstRun r)
         (prevCondValue r) (oldCellValue r) (shouldCheck r).
Definition set_firstRun (v : bool) (r : Rule) : Rule :=
  mkRule (name r) (cond r) (then_ r) (onCellChange r) (ruleType r) v
         (prevCondValue r) (oldCellValue r) (shouldCheck r).
Definition set_prevCondValue (v : bool) (r : Rule) : Rule :=
  mkRule (name r) (cond r) (then_ r) (onCellChange r) (ruleType r) (firstRun r)
         v (oldCellValue r) (shouldCheck r).
Definition set_oldCellValue (v : Value) (r : Rule) : Rule :=
  mkRule (name r) (cond r) (then_ r) (onCellChange r) (ruleType r) (firstRun r)
         (prevCondValue r) v (shouldCheck r).
Definition set_shouldCheck (v : bool) (r : Rule) : Rule :=
  mkRule (name r) (cond r) (then_ r) (onCellChange r) (ruleType r) (firstRun r)
         (prevCondValue r) (oldCellValue r) v.

(** ** Timers *)

(** A [TimerEntry].  The platform timer and the [quit] channel belong to
    the goroutine that waits for ticks; the entry keeps what the engine
    asked for. *)
Record TimerEntry := mkTimerEntry {
  periodic : bool;
  duration_ms : Z
}.

(** ** The engine *)

(** The callback lists of the global stash.  Within one list all keys are
    of one kind ([int] timer ids, or [esCallback] handles written in hex),
    so a list is a map from the number. *)
Inductive CallbackList := ruleEngineTimers | processes | ruleFuncs.

Record Stash := mkStash {
  stash_ruleEngineTimers : gmap Z JSValue;
  stash_processes : gmap Z JSValue;
  stash_ruleFuncs : gmap Z JSValue
}.

Definition getList (propName : CallbackList) (s : Stash) : gmap Z JSValue :=
  match propName with
  | ruleEngineTimers => stash_ruleEngineTimers s
  | processes => stash_processes s
  | ruleFuncs => stash_ruleFuncs s
  end.

Definition setList (propName : CallbackList) (m : gmap Z JSValue) (s : Stash) : Stash :=
  match propName with
  | ruleEngineTimers => mkStash m (stash_processes s) (stash_ruleFuncs s)
  | processes => mkStash (stash_ruleEngineTimers s) m (stash_ruleFuncs s)
  | ruleFuncs => mkStash (stash_ruleEngineTimers s) (stash_processes s) m
  end.

Abbreviation Args := (option (gmap string Value)).

Record RuleEngine := mkEngine {
  model : gmap Cell CellData;
  stash : Stash;
  timers : list (option TimerEntry);
  callbackIndex : esCallback;
  heap : list Rule;
  ruleMap : gmap string RulePtr;
  ruleList : list string;
  notedCells : option (gset Cell);
  cellToRuleMap : gmap Cell (list RulePtr);
  rulesWithoutCells : gset RulePtr
}.

Definition set_stash (v : Stash) (e : RuleEngine) : RuleEngine :=
  mkEngine (model e) v (timers e) (callbackIndex e) (heap e) (ruleMap e)
           (ruleList e) (notedCells e) (cellToRuleMap e) (rulesWithoutCells e).
Definition set_timers (v : list (option TimerEntry)) (e : RuleEngine) : RuleEngine :=
  mkEngine (model e) (stash e) v (callbackIndex e) (heap e) (ruleMap e)
           (ruleList e) (notedCells e) (cellToRuleMap e) (rulesWithoutCells e).
Definition set_callbackIndex (v : esCallback) (e : RuleEngine) : RuleEngine :=
  mkEngine (model e) (stash e) (timers e) v (heap e) (ruleMap e)
           (ruleList e) (notedCells e) (cellToRuleMap e) (rulesWithoutCells e).
Definition set_heap (v : list Rule) (e : RuleEngine) : RuleEngine :=
  mkEngine (model e) (stash e) (timers e) (callbackIndex e) v (ruleMap e)
           (ruleList e) (notedCells e) (cellToRuleMap e) (rulesWithoutCells e).
Definition set_ruleMap (v : gmap string RulePtr) (e : RuleEngine) : RuleEngine :=
  mkEngine (model e) (stash e) (timers e) (callbackIndex e) (heap e) v
           (ruleList e) (notedCells e) (cellToRuleMap e) (rulesWithoutCells e).
Definition set_ruleList (v : list string) (e : RuleEngine) : RuleEngine :=
  mkEngine (model e) (stash e) (timers e) (callbackIndex e) (heap e) (ruleMap e)
           v (notedCells e) (cellToRuleMap e) (rulesWithoutCells e).
Definition set_notedCells (v : option (gset Cell)) (e : RuleEngine) : RuleEngine :=
  mkEngine (model e) (stash e) (timers e) (callbackIndex e) (heap e) (ruleMap e)
           (ruleList e) v (cellToRuleMap e) (rulesWithoutCells e).
Definition set_cellToRuleMap (v : gmap Cell (list RulePtr)) (e : RuleEngine) : RuleEngine :=
  mkEngine (model e) (stash e) (timers e) (callbackIndex e) (heap e) (ruleMap e)
           (ruleList e) (notedCells e) v (rulesWithoutCells e).
Definition set_rulesWithoutCells (v : gset RulePtr) (e : RuleEngine) : RuleEngine :=
  mkEngine (model e) (stash e) (timers e) (callbackIndex e) (heap e) (ruleMap e)
           (ruleList e) (notedCells e) (cellToRuleMap e) v.

(** What the code does that is visible from outside the engine struct:
    protected calls into the script, and log lines.  The output of a
    computation lists what the Go code of that activation does itself; what
    a script does while it is being called is in the engine it leaves. *)
Inductive Event :=
| EvCall (propName : CallbackList) (key : Z) (args : Args)
| EvCallFailed (propName : CallbackList) (key : Z)
| EvTimerIdZero
| EvStopUnknownTimer (n : Z)
| EvFireUnknownTimer (n : Z)
| EvNoCells (ruleName : string)
| EvBadRuleDefinition
| EvBadDefinitionOf (ruleName : string) (err : string).

(** ** The monad of the Go code *)

Inductive Res (A : Type) :=
| Done (a : A) (e : RuleEngine) (out : list Event)
| Panic (msg : string).
Arguments Done {A} a e out.
Arguments Panic {A} msg.

Definition Go (A : Type) : Type := RuleEngine → Res A.

#[global] Instance Go_ret : MRet Go := λ A a e, Done a e [].
#[global] Instance Go_bind : MBind Go := λ A B f m e,
  match m e with
  | Done a e1 out1 =>
      match f a e1 with
      | Done b e2 out2 => Done b e2 (out1 ++ out2)
      | Panic msg => Panic msg
      end
  | Panic msg => Panic msg
  end.

Definition gets {A} (f : RuleEngine → A) : Go A := λ e, Done (f e) e [].
Definition modify (f : RuleEngine → RuleEngine) : Go unit := λ e, Done tt (f e) [].
Definition emit (ev : Event) : Go unit := λ e, Done tt e [ev].
Definition panic {A} (msg : string) : Go A := λ _, Panic msg.

(** Running a loop body over a slice, in order. *)
Fixpoint forEach {A} (l : list A) (body : A → Go unit) : Go unit :=
  match l with
  | [] => mret tt
  | x :: rest => body x ;; forEach rest body
  end.

(** ** The script host *)

(** What a script function does when duktape calls it with the given
    argument object: it returns a value or throws ([None]), and whatever it
    did to the engine through the bridge is in the engine it leaves.  These
    are the calls that come back: a script under which a bound Go function
    panics has no outcome here, and what is proved of a call is proved of
    a call that came back. *)
Class ScriptHost := exec : nat → Args → RuleEngine → option JSValue * RuleEngine.

(** ** Durations *)

(** [time.Duration(ms * float64(time.Millisecond))] of [esWbStartTimer] is
    the product as long as a [float64] holds it exactly; beyond that the
    rounding of the product, and the conversion to [int64] of a value out
    of its range, are what the platform makes of them. *)
Class Platform := bigDuration : Z → Z.

Definition toDuration `{!Platform} (ms : Z) : Z :=
  if Z.abs (ms * 1000000) <=? 2 ^ 53 then ms * 1000000 else bigDuration ms.

Section Engine.
Context `{!ScriptHost} {platform : Platform}.

(** *** Heap and cell model access *)

(** Reading through a [*Rule].  The nil pointer that a missing map key
    yields is an address outside the heap. *)
Definition deref (rule : RulePtr) : Go Rule := λ e,
  match heap e !! rule with
  | Some r => Done r e []
  | None => Panic "invalid memory address or nil pointer dereference"
  end.

Definition update (rule : RulePtr) (f : Rule → Rule) : Go unit :=
  modify (λ e, set_heap (alter f rule (heap e)) e).

(** Modelled from the spec: [EnsureDevice(devName).EnsureCell(cellName)] of
    the cell model, with the cell's "identity (deviceName, name)". *)
Definition getCell (devName cellName : string) : Go Cell :=
  mret (devName, cellName).

(** Modelled from the spec: [Cell.IsComplete], [Cell.Value], [Cell.DevName]
    and [Cell.Name] of the cell model. *)
Definition IsComplete (cell : Cell) : Go bool :=
  gets (λ e, from_option cellComplete false (model e !! cell)).
Definition CellValue (cell : Cell) : Go Value :=
  gets (λ e, from_option cellValue VNil (model e !! cell)).
Definition DevName (cell : Cell) : string := fst cell.
Definition CellName (cell : Cell) : string := snd cell.

(** *** Callback lists *)

Definition invokeCallback (propName : CallbackList) (key : Z) (args : Args) : Go bool :=
  callee ← gets (λ e, getList propName (stash e) !! key);
  emit (EvCall propName key args);;
  match callee with
  | Some (JSFunc f) =>
      res ← (λ e, let '(v, e1) := exec f args e in Done v e1 []);
      match res with
      | Some v => mret (ToBoolean v)
      | None => emit (EvCallFailed propName key);; mret false
      end
  | _ => emit (EvCallFailed propName key);; mret false
  end.

(** [storeCallback] with [key == nil]: a new handle is taken from
    [callbackIndex], a [uint64] counter. *)
Definition storeCallbackNew (propName : CallbackList) (callback : JSValue) : Go esCallback :=
  r ← gets callbackIndex;
  modify (set_callbackIndex ((r + 1) `mod` esCallback_modulus));;
  modify (λ e, set_stash (setList propName (<[r := callback]> (getList propName (stash e))) (stash e)) e);;
  mret r.

(** [storeCallback] with a given key: the returned handle is 0. *)
Definition storeCallbackAt (propName : CallbackList) (callback : JSValue) (key : Z) : Go esCallback :=
  modify (λ e, set_stash (setList propName (<[key := callback]> (getList propName (stash e))) (stash e)) e);;
  mret 0.

Definition removeCallback (propName : CallbackList) (key : Z) : Go unit :=
  modify (λ e, set_stash (setList propName (delete key (getList propName (stash e))) (stash e)) e).

(** *** Dependency tracking *)

Definition startTrackingCells : Go unit :=
  modify (set_notedCells (Some ∅)).

Definition storeRuleCell (rule : RulePtr) (cell : Cell) : Go unit :=
  modify (λ e,
    let list := default [] (cellToRuleMap e !! cell) in
    set_cellToRuleMap (<[cell := list ++ [rule]]> (cellToRuleMap e)) e).

Definition storeRuleTrackedCells (rule : RulePtr) : Go unit :=
  noted ← gets notedCells;
  (if bool_decide (0 < size (default ∅ noted))%nat then
     forEach (elements (default ∅ noted)) (λ cell, storeRuleCell rule cell)
   else
     r ← deref rule;
     emit (EvNoCells (name r));;
     modify (λ e, set_rulesWithoutCells ({[rule]} ∪ rulesWithoutCells e) e));;
  modify (set_notedCells None).

Definition trackCell (cell : Cell) : Go unit :=
  modify (λ e,
    match notedCells e with
    | Some noted => set_notedCells (Some ({[cell]} ∪ noted)) e
    | None => e
    end).

(** *** Rule methods *)

Definition invokeCond (rule : RulePtr) : Go bool :=
  startTrackingCells;;
  r ← deref rule;
  b ← invokeCallback ruleFuncs (cond r) None;
  storeRuleTrackedCells rule;;
  mret b.

Definition ShouldCheck (rule : RulePtr) : Go unit :=
  update rule (set_shouldCheck true).

(** The argument object of the body of an [onCellChange] rule. *)
Definition changeArgs (cell : Cell) (newValue oldValue : Value) : gmap string Value :=
  {[ "device" := VStr (DevName cell);
     "cell" := VStr (CellName cell);
     "newValue" := newValue;
     "oldValue" := oldValue ]}.

(** The loop over [rule.onCellChange] in [Check]. *)
Fixpoint checkCells (rule : RulePtr) (cell : Cell) (watch : list Cell) : Go (bool * Args) :=
  match watch with
  | [] => mret (false, None)
  | checkCell :: rest =>
      if bool_decide (cell = checkCell) then
        newValue ← CellValue cell;
        r ← deref rule;
        let args := changeArgs cell newValue (oldCellValue r) in
        v ← CellValue cell;
        update rule (set_oldCellValue v);;
        mret (true, Some args)
      else checkCells rule cell rest
  end.

Definition Check (rule : RulePtr) (cell : option Cell) : Go unit :=
  r ← deref rule;
  if bool_decide (cell ≠ None) && negb (shouldCheck r) then mret tt
  else if ruleType r =? RULE_TYPE_NONE then panic "invoking a destroyed rule"
  else
    '(shouldFire, args) ←
      (if ruleType r =? RULE_TYPE_LEVEL_TRIGGERED then
         b ← invokeCond rule; mret (b, None)
       else if ruleType r =? RULE_TYPE_EDGE_TRIGGERED then
         current ← invokeCond rule;
         r1 ← deref rule;
         let shouldFire :=
           current && (firstRun r1 || negb (eqb current (prevCondValue r1))) in
         update rule (set_prevCondValue current);;
         mret (shouldFire, None)
       else if ruleType r =? RULE_TYPE_ON_CELL_CHANGE then
         match cell with
         | Some c =>
             complete ← IsComplete c;
             if complete : bool then
               r1 ← deref rule; checkCells rule c (onCellChange r1)
             else mret (false, None)
         | None => mret (false, None)
         end
       else mret (false, None));
    update rule (set_firstRun false);;
    update rule (set_shouldCheck false);;
    if shouldFire : bool then
      r2 ← deref rule;
      invokeCallback ruleFuncs (then_ r2) args;; mret tt
    else mret tt.

Definition Destroy (rule : RulePtr) : Go unit :=
  r ← deref rule;
  (if bool_decide (cond r ≠ 0) then removeCallback ruleFuncs (cond r) else mret tt);;
  r1 ← deref rule;
  (if bool_decide (then_ r1 ≠ 0) then removeCallback ruleFuncs (then_ r1) else mret tt);;
  update rule (set_ruleType RULE_TYPE_NONE).

(** *** Rule construction *)

(** [rule.storeCallback(defIndex, propName)] *)
Definition storeRuleCallback (def : JSValue) (propName : string) : Go esCallback :=
  storeCallbackNew ruleFuncs (GetPropString def propName).

(** The loop of [newRule] over the cell names of [onCellChange].  The slice
    is filled from the front; [inr] is the error of the first name that has
    no slash. *)
Fixpoint storeWatchCells (rule : RulePtr) (cellNames : list string) : Go (unit + string) :=
  match cellNames with
  | [] => mret (inl tt)
  | fullName :: rest =>
      match splitSlash fullName with
      | None => mret (inr ("invalid onCellChange spec: '" +:+ fullName +:+ "'"))
      | Some (devName, cellName) =>
          cell ← getCell devName cellName;
          update rule (λ r, set_onCellChange (onCellChange r ++ [cell]) r);;
          storeRuleCell rule cell;;
          storeWatchCells rule rest
      end
  end.

Definition newRule (name : string) (def : JSValue) : Go (RulePtr + string) :=
  rule ← gets (λ e, length (heap e));
  modify (λ e, set_heap (heap e ++ [mkRule name 0 0 [] 0 true false VNil false]) e);;
  if negb (HasPropString def "then") then mret (inr "invalid rule -- no then")
  else
    h ← storeRuleCallback def "then";
    update rule (set_then h);;
    let hasWhen := HasPropString def "when" in
    let hasAsSoonAs := HasPropString def "asSoonAs" in
    let hasOnCellChange := HasPropString def "onCellChange" in
    if hasWhen then
      if hasAsSoonAs || hasOnCellChange then
        mret (inr "invalid rule -- cannot combine 'when' with 'asSoonAs' or 'onCellChange'")
      else
        c ← storeRuleCallback def "when";
        update rule (set_cond c);;
        update rule (set_ruleType RULE_TYPE_LEVEL_TRIGGERED);;
        mret (inl rule)
    else if hasAsSoonAs then
      if hasOnCellChange then
        mret (inr "invalid rule -- cannot combine 'asSoonAs' with 'onCellChange'")
      else
        c ← storeRuleCallback def "asSoonAs";
        update rule (set_cond c);;
        update rule (set_ruleType RULE_TYPE_EDGE_TRIGGERED);;
        mret (inl rule)
    else if hasOnCellChange then
      let v := GetPropString def "onCellChange" in
      let cellNames :=
        match v with JSStr s => [s] | _ => StringArrayToGo v end in
      if negb (IsString v) && bool_decide (length cellNames = 0%nat) then
        mret (inr "empty onCellChange")
      else
        update rule (set_ruleType RULE_TYPE_ON_CELL_CHANGE);;
        res ← storeWatchCells rule cellNames;
        match res with
        | inr err => mret (inr err)
        | inl _ => mret (inl rule)
        end
    else
      mret (inr "invalid rule -- must provide one of 'when', 'asSoonAs' or 'onCellChange'").

(** Return values of the Go functions bound into the script. *)
Inductive DukRet :=
| DUK_RET_ERROR
| DUK_RET_TYPE_ERROR
| Ret0
| Ret1 (v : JSValue).

Definition esWbDefineRule (args : list JSValue) : Go DukRet :=
  match args with
  | [JSStr name; def] =>
      if negb (IsObject def) then emit EvBadRuleDefinition;; mret DUK_RET_ERROR
      else
        res ← newRule name def;
        match res with
        | inr err => emit (EvBadDefinitionOf name err);; mret DUK_RET_ERROR
        | inl newRule =>
            old ← gets (λ e, ruleMap e !! name);
            match old with
            | Some oldRule => Destroy oldRule
            | None => modify (λ e, set_ruleList (ruleList e ++ [name]) e)
            end;;
            modify (λ e, set_ruleMap (<[name := newRule]> (ruleMap e)) e);;
            mret Ret0
        end
  | _ => emit EvBadRuleDefinition;; mret DUK_RET_ERROR
  end.

(** *** Timers *)

(** [engine.timers[n - 1]], with Go's bounds check. *)
Definition timerAt (n : Z) : Go (option TimerEntry) := λ e,
  if (0 <=? n - 1) && (n - 1 <? Z.of_nat (length (timers e))) then
    Done (mjoin (timers e !! Z.to_nat (n - 1))) e []
  else Panic "index out of range".

Definition setTimerAt (n : Z) (slot : option TimerEntry) : Go unit := λ e,
  if (0 <=? n - 1) && (n - 1 <? Z.of_nat (length (timers e))) then
    Done tt (set_timers (<[Z.to_nat (n - 1) := slot]> (timers e)) e) []
  else Panic "index out of range".

Definition removeTimer (n : Z) : Go unit :=
  removeCallback ruleEngineTimers n;;
  setTimerAt n None.

Definition fireTimer (n : Z) : Go unit :=
  entry ← timerAt n;
  match entry with
  | None => emit (EvFireUnknownTimer n)
  | Some entry =>
      invokeCallback ruleEngineTimers n None;;
      if periodic entry then mret tt else removeTimer n
  end.

Inductive LoopExit := Break | Continue.

(** The body of the slot loop of [esWbStartTimer]:
<<
    if engine.timers[n - 1] == nil {
        engine.timers[n - 1] = entry
    }
    break
>> *)
Definition slotLoopBody (entry : TimerEntry) (n : Z) : Go LoopExit :=
  slot ← timerAt n;
  match slot with
  | None => setTimerAt n (Some entry)
  | Some _ => mret tt
  end;;
  mret Break.

(** [for n = 1; n <= len(engine.timers); n++ { body }], leaving [n]. *)
Fixpoint slotLoop (fuel : nat) (entry : TimerEntry) (n : Z) : Go Z :=
  match fuel with
  | O => mret n
  | S fuel' =>
      len ← gets (λ e, Z.of_nat (length (timers e)));
      if n <=? len then
        exit ← slotLoopBody entry n;
        match exit with
        | Break => mret n
        | Continue => slotLoop fuel' entry (n + 1)
        end
      else mret n
  end.

(** [newTimer], the [timerFunc] that [NewRuleEngine] installs:
    [time.NewTicker] panics on a duration that is not positive,
    [time.NewTimer] takes any. *)
Definition newTimer (id d : Z) (periodic : bool) : Go unit :=
  if periodic && (d <=? 0) then panic "non-positive interval for NewTicker"
  else mret tt.

Definition esWbStartTimer (args : list JSValue) : Go DukRet :=
  match args with
  | [JSFunc f; JSNum ms; p] =>
      let periodic := ToBoolean p in
      let entry := mkTimerEntry periodic ms in
      len ← gets (λ e, length (timers e));
      n ← slotLoop (S len) entry 1;
      len' ← gets (λ e, Z.of_nat (length (timers e)));
      (if len' <? n then modify (λ e, set_timers (timers e ++ [Some entry]) e)
       else mret tt);;
      storeCallbackAt ruleEngineTimers (JSFunc f) n;;
      newTimer n (toDuration ms) periodic;;
      mret (Ret1 (JSNum n))
  | _ => mret DUK_RET_ERROR
  end.

Definition esWbStopTimer (args : list JSValue) : Go DukRet :=
  match args with
  | [JSNum n] =>
      if n =? 0 then emit EvTimerIdZero;; mret Ret0
      else
        entry ← timerAt n;
        match entry with
        | Some _ => removeTimer n;; mret Ret0
        | None => emit (EvStopUnknownTimer n);; mret Ret0
        end
  | _ => mret DUK_RET_ERROR
  end.

(** *** The scheduler *)

(** The first half of [RunRules] for a given [cellSpec]: resolving the cell
    and calling [ShouldCheck] on rules. *)
Definition markRules (cellSpec : CellSpec) : Go Cell :=
  cell ← getCell (DevName_ cellSpec) (CellName_ cellSpec);
  complete ← IsComplete cell;
  (if complete : bool then
     found ← gets (λ e, cellToRuleMap e !! cell);
     match found with
     | Some list => forEach list ShouldCheck
     | None => mret tt
     end
   else mret tt);;
  without ← gets (λ e, elements (rulesWithoutCells e));
  forEach without ShouldCheck;;
  mret cell.

(** [engine.ruleMap[name].Check(cell)]: a name without an entry yields the
    nil pointer. *)
Definition checkByName (cell : option Cell) (name : string) : Go unit :=
  rule ← gets (λ e, ruleMap e !! name);
  match rule with
  | Some rule => Check rule cell
  | None => panic "invalid memory address or nil pointer dereference"
  end.

Definition RunRules (cellSpec : option CellSpec) : Go unit :=
  cell ← match cellSpec with
         | Some spec => c ← markRules spec; mret (Some c)
         | None => mret None
         end;
  names ← gets ruleList;
  forEach names (checkByName cell).

End Engine.

(** [NewRuleEngine], for a given cell model: the state before any script
    is loaded. *)
Definition NewRuleEngine (model : gmap Cell CellData) : RuleEngine :=
  mkEngine model (mkStash ∅ ∅ ∅) [] 1 [] ∅ [] None ∅ ∅.

(** ** The script runtime, [scripts/lib.js] *)

Module Lib.

(** What a script can throw: the runtime's own [IncompleteCellCaught], or
    anything else. *)
Inductive Exn :=
| IncompleteCellCaught (cellName : string)
| OtherError (msg : string).

(** [e instanceof _WbRules.IncompleteCellCaught] *)
Definition isIncompleteCellCaught (e : Exn) : bool :=
  match e with IncompleteCellCaught _ => true | OtherError _ => false end.

(** The state a script runs in: the counter [_WbRules.requireCompleteCells]
    and the engine behind the bridge. *)
Record State := mkState {
  requireCompleteCells : Z;
  engine : RuleEngine
}.

Inductive Completion (A : Type) :=
| Return (v : A)
| Throw (e : Exn).
Arguments Return {A} v.
Arguments Throw {A} e.

Definition JS (A : Type) : Type := State → Completion A * State.

#[global] Instance JS_ret : MRet JS := λ A a st, (Return a, st).
#[global] Instance JS_bind : MBind JS := λ A B f m st,
  match m st with
  | (Return a, st1) => f a st1
  | (Throw e, st1) => (Throw e, st1)
  end.

Definition throw {A} (e : Exn) : JS A := λ st, (Throw e, st).

(** [try { body } catch (e) { handler e }] *)
Definition tryCatch {A} (body : JS A) (handler : Exn → JS A) : JS A := λ st,
  match body st with
  | (Return v, st1) => (Return v, st1)
  | (Throw e, st1) => handler e st1
  end.

(** [try { body } finally { fin }] *)
Definition tryFinally {A} (body : JS A) (fin : JS unit) : JS A := λ st,
  let '(c, st1) := body st in
  match fin st1 with
  | (Return _, st2) => (c, st2)
  | (Throw e, st2) => (Throw e, st2)
  end.

Definition addRequireCompleteCells (d : Z) : JS unit := λ st,
  (Return tt, mkState (requireCompleteCells st + d) (engine st)).

(** A function of the bridge, run on the engine behind it.  The functions
    run through it below -- [trackCell], [IsComplete], [CellValue] -- do
    not panic, so that its last case is never taken. *)
Definition bridge {A} (g : Go A) : JS A := λ st,
  match g (engine st) with
  | Done a e _ => (Return a, mkState (requireCompleteCells st) e)
  | Panic msg => (Throw (OtherError msg), st)
  end.

(** The cell object's [isComplete] and [value] of [esWbCellObject]. *)
Definition cell_isComplete (cell : Cell) : JS bool :=
  bridge (trackCell cell;; IsComplete cell).

Definition toJS (v : Value) : JSValue :=
  match v with
  | VNil => JSNull
  | VBool b => JSBool b
  | VNum n => JSNum n
  | VStr s => JSStr s
  end.

Definition cell_value (cell : Cell) : JS JSValue :=
  bridge (trackCell cell;; v ← CellValue cell; mret (toJS v)).

(** The [get] trap of the device proxy of [getDevValue]: [dev[devName][name]]. *)
Definition devGet (devName name : string) : JS JSValue :=
  let cell : Cell := (devName, name) in
  counter ← (λ st, (Return (requireCompleteCells st), st));
  if negb (counter =? 0) then
    complete ← cell_isComplete cell;
    if negb complete then throw (IncompleteCellCaught name)
    else cell_value cell
  else cell_value cell.

(** [wrapConditionFunc (f, incompleteValue)] of [defineRule]. *)
Definition wrapConditionFunc (f : JS JSValue) (incompleteValue : JSValue) : JS JSValue :=
  let conv : JSValue → JSValue :=
    match incompleteValue with
    | JSBool _ => λ v, JSBool (ToBoolean v)
    | _ => λ v, v
    end in
  addRequireCompleteCells 1;;
  tryFinally
    (tryCatch
       (v ← f; mret (conv v))
       (λ e, if isIncompleteCellCaught e then mret incompleteValue else throw e))
    (addRequireCompleteCells (-1)).

(** What [defineRule] installs for the keys [when] and [asSoonAs]. *)
Definition wrapWhen (f : JS JSValue) : JS JSValue :=
  wrapConditionFunc f (JSBool false).

End Lib.

(** ** Reading results *)

(** The result [res] of a computation that comes after the events [out]. *)
Definition after {A} (out : list Event) (res : Res A) : Res A :=
  match res with
  | Done a e o => Done a e (out ++ o)
  | Panic msg => Panic msg
  end.

(** The heap in which the rule at [rule] has been replaced by [r]. *)
Definition withRule (rule : RulePtr) (r : Rule) (e : RuleEngine) : RuleEngine :=
  set_heap (<[rule := r]> (heap e)) e.

(** [e1] differs from [e] in the heap of rule objects at most. *)
Definition sameButHeap (e e1 : RuleEngine) : Prop :=
  model e1 = model e ∧ stash e1 = stash e ∧ timers e1 = timers e ∧
  callbackIndex e1 = callbackIndex e ∧ ruleMap e1 = ruleMap e ∧
  ruleList e1 = ruleList e ∧ notedCells e1 = notedCells e ∧
  cellToRuleMap e1 = cellToRuleMap e ∧
  rulesWithoutCells e1 = rulesWithoutCells e.

(** The heap after [ShouldCheck] on each rule of a list. *)
Definition markAll (rules : list RulePtr) (h : list Rule) : list Rule :=
  foldl (λ h rule, alter (set_shouldCheck true) rule h) h rules.

(** The dependency index of [e1] extends that of [e]: every list of
    [cellToRuleMap] is continued, and [rulesWithoutCells] has lost nothing. *)
Definition indexGrows (e e1 : RuleEngine) : Prop :=
  (∀ (cell : Cell) (l : list RulePtr),
     cellToRuleMap e !! cell = Some l →
     ∃ l', cellToRuleMap e1 !! cell = Some (l ++ l')) ∧
  rulesWithoutCells e ⊆ rulesWithoutCells e1.

(** The rule at [rule] is listed under each of the given cells. *)
Definition indexedUnder (e : RuleEngine) (rule : RulePtr) (cells : list Cell) : Prop :=
  ∀ w : Cell, w ∈ cells → ∃ l, cellToRuleMap e !! w = Some l ∧ rule ∈ l.

(** The computation [m] only ever extends the dependency index. *)
Definition grows {A} (m : Go A) : Prop :=
  ∀ e a e1 out, m e = Done a e1 out → indexGrows e e1.

(** A host whose scripts only ever extend the dependency index, as scripts
    that act through the bridge do. *)
Definition hostGrows `{!ScriptHost} : Prop :=
  ∀ f args e, indexGrows e (exec f args e).2.

(** ** Script hosts and engines used in examples *)

(** Function 0 returns true, 1 returns false, 2 throws, 3 reads the cell
    [A/x] through the bridge and returns true; the others return
    [undefined]. *)
Definition demoHost : ScriptHost := λ f args e,
  match f with
  | 0%nat => (Some (JSBool true), e)
  | 1%nat => (Some (JSBool false), e)
  | 2%nat => (None, e)
  | 3%nat =>
      match trackCell ("A", "x") e with
      | Done _ e1 _ => (Some (JSBool true), e1)
      | Panic _ => (None, e)
      end
  | _ => (Some JSUndefined, e)
  end.

(** An engine with one edge-triggered rule, condition handle 1 bound to
    script function [condFn], body handle 2, with the given latched state. *)
Definition edgeEngine (condFn : nat) (first prev should : bool) : RuleEngine :=
  mkEngine ∅ (mkStash ∅ ∅ {[ 1 := JSFunc condFn; 2 := JSFunc 4%nat ]}) [] 3
    [mkRule "r" 1 2 [] RULE_TYPE_EDGE_TRIGGERED first prev VNil should]
    {[ "r" := 0%nat ]} ["r"] None ∅ ∅.

(** The same engine with the rule level-triggered. *)
Definition levelEngine (condFn : nat) (first prev should : bool) : RuleEngine :=
  mkEngine ∅ (mkStash ∅ ∅ {[ 1 := JSFunc condFn; 2 := JSFunc 4%nat ]}) [] 3
    [mkRule "r" 1 2 [] RULE_TYPE_LEVEL_TRIGGERED first prev VNil should]
    {[ "r" := 0%nat ]} ["r"] None ∅ ∅.

(** A timer table whose only slot holds a one-shot timer, with its
    callback stored. *)
Definition oneShotEngine : RuleEngine :=
  mkEngine ∅ (mkStash {[ 1 := JSFunc 7%nat ]} ∅ ∅)
    [Some (mkTimerEntry false 50)] 1 [] ∅ [] None ∅ ∅.

(** A timer table whose slot 1 holds a periodic timer and whose slot 2 is
    free, with the callback of timer 1 stored.  The slot loop of
    [esWbStartTimer] as it is builds no table of two slots; this one
    shows what [stopTimer] and [fireTimer] do with ids inside and outside
    a longer table. *)
Definition timerEngine : RuleEngine :=
  mkEngine ∅ (mkStash {[ 1 := JSFunc 5%nat ]} ∅ ∅)
    [Some (mkTimerEntry true 50); None] 1 [] ∅ [] None ∅ ∅.

(** The spec's allocation: "the smallest positive integer slot that is free
    in the timer table", or the slot past the end "if none is free". *)
Fixpoint smallestFreeSlot (n : Z) (timers : list (option TimerEntry)) : Z :=
  match timers with
  | [] => n
  | None :: _ => n
  | Some _ :: rest => smallestFreeSlot (n + 1) rest
  end.

(** A script state in which [Weather/Temp1] has not been published yet. *)
Definition freshState (counter : Z) : Lib.State :=
  Lib.mkState counter (NewRuleEngine ∅).

(** A condition that throws something of its own. *)
Definition failingCondition : Lib.JS JSValue :=
  Lib.throw (Lib.OtherError "TypeError").

(** The engine a computation leaves. *)
Definition engineOf {A} (res : Res A) : RuleEngine :=
  match res with
  | Done _ e _ => e
  | Panic _ => NewRuleEngine ∅
  end.

(** The bus driver putting a new state of the cells into the cell model. *)
Definition set_model (v : gmap Cell CellData) (e : RuleEngine) : RuleEngine :=
  mkEngine v (stash e) (timers e) (callbackIndex e) (heap e) (ruleMap e)
           (ruleList e) (notedCells e) (cellToRuleMap e) (rulesWithoutCells e).

Definition whenDef (condFn thenFn : nat) : JSValue :=
  JSObject [("when", JSFunc condFn); ("then", JSFunc thenFn)].

Definition asSoonAsDef (condFn thenFn : nat) : JSValue :=
  JSObject [("asSoonAs", JSFunc condFn); ("then", JSFunc thenFn)].

(** The rules A, B and C, defined in this order. *)
Definition threeRules : RuleEngine :=
  engineOf (esWbDefineRule [JSStr "C"; whenDef 0 4]
    (engineOf (esWbDefineRule [JSStr "B"; whenDef 1 4]
      (engineOf (esWbDefineRule [JSStr "A"; whenDef 0 4] (NewRuleEngine ∅)))))).

(** [Weather/Temp1] with a value from the bus. *)
Definition weatherModel (v : Z) : gmap Cell CellData :=
  {[ ("Weather", "Temp1") := mkCellData true (VNum v) ]}.

(** The rule [tempChange] on [Weather/Temp1], defined while the cell holds
    its first value, 20. *)
Definition tempEngine : RuleEngine :=
  engineOf (esWbDefineRule
    [JSStr "tempChange";
     JSObject [("onCellChange", JSStr "Weather/Temp1"); ("then", JSFunc 4%nat)]]
    (NewRuleEngine (weatherModel 20))).

(** A host whose function 9 calls [runRules ()], a pass without a cell;
    the other functions are those of [demoHost], and none of them calls
    function 9. *)
Definition nestedHost : ScriptHost := λ f args e,
  match f with
  | 9%nat => (Some JSUndefined, engineOf (RunRules (H := demoHost) None e))
  | _ => exec (ScriptHost := demoHost) f args e
  end.

(** The rules [rerun] and [tempChange], both on [Weather/Temp1] and
    defined in this order; the body of [rerun] is function 9. *)
Definition rerunEngine : RuleEngine :=
  engineOf (esWbDefineRule
    [JSStr "tempChange";
     JSObject [("onCellChange", JSStr "Weather/Temp1"); ("then", JSFunc 4%nat)]]
    (engineOf (esWbDefineRule
      [JSStr "rerun";
       JSObject [("onCellChange", JSStr "Weather/Temp1"); ("then", JSFunc 9%nat)]]
      (NewRuleEngine (weatherModel 20))))).

(** Two rules after their first pass: the condition of [r] has read [A/x],
    the condition of [q] has read no cell. *)
Definition trackedEngine : RuleEngine :=
  engineOf (RunRules (H := demoHost) None
    (engineOf (esWbDefineRule [JSStr "q"; whenDef 1 4]
      (engineOf (esWbDefineRule [JSStr "r"; asSoonAsDef 3 4] (NewRuleEngine ∅)))))).

(** Both rules defined again, which destroys the rules at 0 and 1. *)
Definition redefinedEngine : RuleEngine :=
  engineOf (esWbDefineRule [JSStr "q"; whenDef 1 4]
    (engineOf (esWbDefineRule [JSStr "r"; asSoonAsDef 3 4] trackedEngine))).

(** A platform for the examples, which stay within the exact durations:
    beyond them it gives the smallest [int64]. *)
Definition demoPlatform : Platform := λ _, - 2 ^ 63.

(** The engine after [setInterval (f5, 50)] on a new engine: slot 1, the
    only one, holds the running periodic timer. *)
Definition runningTimerEngine : RuleEngine :=
  engineOf (esWbStartTimer (platform := demoPlatform)
              [JSFunc 5%nat; JSNum 50; JSBool true] (NewRuleEngine ∅)).

(** A host whose every function starts a one-shot timer of 100 ms with
    function 8 as its callback, as a body calling [setTimeout] does, and
    returns [undefined]. *)
Definition rearmHost : ScriptHost := λ f args e,
  (Some JSUndefined,
   engineOf (esWbStartTimer (platform := demoPlatform)
               [JSFunc 8%nat; JSNum 100; JSBool false] e)).

(** ** Rule definitions and the registry *)

(** The cell names [newRule] takes from [onCellChange]. *)
Definition watchNames (def : JSValue) : list string :=
  match GetPropString def "onCellChange" with
  | JSStr s => [s]
  | _ => StringArrayToGo (GetPropString def "onCellChange")
  end.

(** The trigger of a definition [newRule] accepts: the definition has
    [then] and exactly one of [when], [asSoonAs] and [onCellChange], and the
    names of [onCellChange] -- one string, or an array that is not empty --
    all contain a slash. *)
Definition triggerOf (def : JSValue) : option Z :=
  if negb (HasPropString def "then") then None
  else
    match HasPropString def "when", HasPropString def "asSoonAs",
          HasPropString def "onCellChange" with
    | true, false, false => Some RULE_TYPE_LEVEL_TRIGGERED
    | false, true, false => Some RULE_TYPE_EDGE_TRIGGERED
    | false, false, true =>
        if (IsString (GetPropString def "onCellChange") ||
            negb (bool_decide (length (watchNames def) = 0%nat))) &&
           forallb (λ s, bool_decide (is_Some (splitSlash s))) (watchNames def)
        then Some RULE_TYPE_ON_CELL_CHANGE
        else None
    | _, _, _ => None
    end.

(** The registry is well formed: [ruleList] names each registered rule
    once, and the names of [ruleMap] point to distinct rule objects that
    have not been destroyed. *)
Definition wfRegistry (e : RuleEngine) : Prop :=
  NoDup (ruleList e) ∧
  (∀ nm, nm ∈ ruleList e ↔ is_Some (ruleMap e !! nm)) ∧
  (∀ nm (p : RulePtr), ruleMap e !! nm = Some p →
     ∃ r, heap e !! p = Some r ∧ ruleType r ≠ RULE_TYPE_NONE) ∧
  (∀ nm1 nm2 (p : RulePtr),
     ruleMap e !! nm1 = Some p → ruleMap e !! nm2 = Some p → nm1 = nm2).

(** No rule object and no registered name has gone from [e] to [e1]. *)
Definition keepsRegistry (e e1 : RuleEngine) : Prop :=
  (length (heap e) ≤ length (heap e1))%nat ∧
  ∀ nm, is_Some (ruleMap e !! nm) → is_Some (ruleMap e1 !! nm).

(** A host whose scripts leave the registry well formed and remove
    nothing from it, as scripts that act through the bridge do. *)
Definition hostKeepsRegistry `{!ScriptHost} : Prop :=
  ∀ f args e, wfRegistry e →
    wfRegistry (exec f args e).2 ∧ keepsRegistry e (exec f args e).2.

(** On a well-formed registry in which [rule] is a rule object, [m]
    returns, with the registry well formed and nothing gone. *)
Definition safe {A} (rule : RulePtr) (m : Go A) : Prop :=
  ∀ e, wfRegistry e → (rule < length (heap e))%nat →
    ∃ a e1 out, m e = Done a e1 out ∧ wfRegistry e1 ∧ keepsRegistry e e1.

(** ** More of the Go functions bound into the script *)

Definition IsNumber (v : JSValue) : bool :=
  match v with JSNum _ => true | _ => false end.
Definition IsFunction (v : JSValue) : bool :=
  match v with JSFunc _ => true | _ => false end.
Definition IsArray (v : JSValue) : bool :=
  match v with JSArray _ => true | _ => false end.
Definition IsBoolean (v : JSValue) : bool :=
  match v with JSBool _ => true | _ => false end.
Definition IsNullOrUndefined (v : JSValue) : bool :=
  match v with JSUndefined | JSNull => true | _ => false end.

(** [ctx.GetString] and [ctx.GetBoolean]: the empty string and false for
    values of another kind. *)
Definition GetString (v : JSValue) : string :=
  match v with JSStr s => s | _ => "" end.
Definition GetBoolean (v : JSValue) : bool :=
  match v with JSBool b => b | _ => false end.

(** *** [publish] *)

(** The coercions of duktape that [esPublish] applies to values of any
    kind: [int(ctx.ToNumber(i))] and [ctx.SafeToString(i)].  They belong to
    the script host and are taken as given. *)
Class Coercions := {
  ToInt : JSValue → Z;
  SafeToString : JSValue → string
}.

Record MQTTMessage := mkMessage {
  Topic : string;
  Payload : string;
  QoS : Z;
  Retained : bool
}.

(** The end of [esPublish], when [retain] and [qos] have been taken off the
    stack; [byte(qos)] keeps the low eight bits. *)
Definition publishTopicPayload `{!Coercions} (args : list JSValue) (qos : Z) (retain : bool)
    : DukRet * option MQTTMessage :=
  match args with
  | [topic; payload] =>
      if negb (IsString topic) then (DUK_RET_TYPE_ERROR, None)
      else (Ret0, Some (mkMessage (GetString topic) (SafeToString payload)
                                  (qos `mod` 256) retain))
  | _ => (DUK_RET_ERROR, None)
  end.

(** [esPublish]: the return value, and the message handed to the MQTT
    client if there is one. *)
Definition esPublish `{!Coercions} (args : list JSValue) : DukRet * option MQTTMessage :=
  let '(retain, args1) :=
    match args with
    | [a; b; c; d] => (ToBoolean d, [a; b; c])
    | _ => (false, args)
    end in
  match args1 with
  | [a; b; c] =>
      let qos := ToInt c in
      if (qos <? 0) || (2 <? qos) then (DUK_RET_ERROR, None)
      else publishTopicPayload [a; b] qos retain
  | _ => publishTopicPayload args1 0 retain
  end.

(** *** [spawn] *)

(** What [esWbSpawn] hands to the goroutine that runs the command. *)
Record SpawnRequest := mkSpawnRequest {
  argv : list string;
  captureOutput : bool;
  captureErrorOutput : bool;
  input : option string;
  callbackHandle : esCallback
}.

(** What [Spawn] gives back for a command that ran. *)
Record SpawnResult := mkSpawnResult {
  ExitStatus : Z;
  CapturedOutput : string;
  CapturedErrorOutput : string
}.

(** The error lines of the goroutine. *)
Inductive SpawnLog :=
| ExternalCommandFailed (err : string)
| CommandFailed.

Section Spawn.
Context `{!ScriptHost}.

(** [esWbSpawn] up to the start of the goroutine. *)
Definition esWbSpawn (args : list JSValue) : Go (DukRet * option SpawnRequest) :=
  match args with
  | [a0; a1; a2; a3; a4] =>
      if negb (IsArray a0) || negb (IsBoolean a2) || negb (IsBoolean a3)
      then mret (DUK_RET_ERROR, None)
      else
        let args := StringArrayToGo a0 in
        if bool_decide (length args = 0%nat) then mret (DUK_RET_ERROR, None)
        else
          stored ←
            (if IsFunction a1 then
               h ← storeCallbackNew processes a1; mret (Some h)
             else if negb (IsNullOrUndefined a1) then mret None
             else mret (Some NO_CALLBACK));
          match stored with
          | None => mret (DUK_RET_ERROR, None)
          | Some callbackIndex =>
              if IsString a4 then
                mret (Ret0, Some (mkSpawnRequest args (GetBoolean a2) (GetBoolean a3)
                                    (Some (GetString a4)) callbackIndex))
              else if negb (IsNullOrUndefined a4) then mret (DUK_RET_ERROR, None)
              else
                mret (Ret0, Some (mkSpawnRequest args (GetBoolean a2) (GetBoolean a3)
                                    None callbackIndex))
          end
  | _ => mret (DUK_RET_ERROR, None)
  end.

(** The argument object of the exit callback. *)
Definition exitArgs (req : SpawnRequest) (r : SpawnResult) : gmap string Value :=
  <["capturedErrorOutput" := VStr (CapturedErrorOutput r)]>
    (if captureOutput req
     then <["capturedOutput" := VStr (CapturedOutput r)]>
            {[ "exitStatus" := VNum (ExitStatus r) ]}
     else {[ "exitStatus" := VNum (ExitStatus r) ]}).

(** The goroutine of [esWbSpawn] once [Spawn] has come back with an error
    or with a result: what it does on the engine, and its error line. *)
Definition spawnReturned (req : SpawnRequest) (result : string + SpawnResult)
    : Go (option SpawnLog) :=
  match result with
  | inl err => mret (Some (ExternalCommandFailed err))
  | inr r =>
      if 0 <? callbackHandle req then
        invokeCallback processes (callbackHandle req) (Some (exitArgs req r));;
        removeCallback processes (callbackHandle req);;
        mret None
      else if negb (ExitStatus r =? 0) then mret (Some CommandFailed)
      else mret None
  end.

End Spawn.

(** ** More of the script runtime, [scripts/lib.js] *)

Module Runtime.

Section Bound.
Context {platform : Platform}.

(** A call of a Go function bound into the script: its value comes back,
    a [DUK_RET_] error code is thrown as an error.  A Go panic is no
    script error: nothing catches it and the call does not come back,
    which is [None]. *)
Definition callGo (g : Go DukRet) (st : Lib.State)
    : option (Lib.Completion JSValue * Lib.State) :=
  match g (Lib.engine st) with
  | Done (Ret1 v) e _ =>
      Some (Lib.Return v, Lib.mkState (Lib.requireCompleteCells st) e)
  | Done Ret0 e _ =>
      Some (Lib.Return JSUndefined, Lib.mkState (Lib.requireCompleteCells st) e)
  | Done DUK_RET_ERROR e _ =>
      Some (Lib.Throw (Lib.OtherError "Error"),
            Lib.mkState (Lib.requireCompleteCells st) e)
  | Done DUK_RET_TYPE_ERROR e _ =>
      Some (Lib.Throw (Lib.OtherError "TypeError"),
            Lib.mkState (Lib.requireCompleteCells st) e)
  | Panic _ => None
  end.

(** A function of the library that calls without [return]. *)
Definition noResult (call : Lib.State → option (Lib.Completion JSValue * Lib.State))
    (st : Lib.State) : option (Lib.Completion JSValue * Lib.State) :=
  match call st with
  | Some (Lib.Return _, st1) => Some (Lib.Return JSUndefined, st1)
  | r => r
  end.

(** [_WbRules.startTimer (name, ms, periodic)] *)
Definition WbRules_startTimer (name ms periodic : JSValue) :=
  noResult (callGo (esWbStartTimer [name; ms; JSBool (ToBoolean periodic)])).

Definition startTimer (name ms : JSValue) :=
  noResult (WbRules_startTimer name ms (JSBool false)).

Definition startTicker (name ms : JSValue) :=
  noResult (WbRules_startTimer name ms (JSBool true)).

Definition setTimeout (callback ms : JSValue) :=
  callGo (esWbStartTimer [callback; ms; JSBool false]).

Definition setInterval (callback ms : JSValue) :=
  callGo (esWbStartTimer [callback; ms; JSBool true]).

Definition clearTimeout (id : JSValue) :=
  noResult (callGo (esWbStopTimer [id])).

Definition clearInterval (id : JSValue) :=
  noResult (clearTimeout id).

(** [timers[name].stop ()] *)
Definition timers_stop (name : JSValue) :=
  noResult (callGo (esWbStopTimer [name])).

End Bound.

(** The arguments with which the function [defineRule] puts in place of
    [then] calls the user's body, for the argument object the engine
    passes; a property that is not there is [undefined]. *)
Definition thenArguments (options : Args) : list Value :=
  match options with
  | None => []
  | Some m =>
      if bool_decide (is_Some (m !! "device"))
      then [default VNil (m !! "newValue"); default VNil (m !! "device");
            default VNil (m !! "cell")]
      else [default VNil (m !! "newValue")]
  end.

(** [name.indexOf ("/")] *)
Fixpoint indexOfSlash (name : string) : Z :=
  match name with
  | EmptyString => -1
  | String c rest =>
      if Ascii.eqb c "/"%char then 0
      else let i := indexOfSlash rest in if i <? 0 then -1 else i + 1
  end.

(** The test of [getDevValue] and [setDevValue] for a name that addresses
    a cell, with the device name and the cell name they slice out of it. *)
Definition devRef (name : string) : option (string * string) :=
  let slashPosition := indexOfSlash name in
  if (0 <? slashPosition) && (slashPosition <? Z.of_nat (String.length name) - 1)
  then Some (String.substring 0 (Z.to_nat slashPosition) name,
             String.substring (Z.to_nat (slashPosition + 1))
                       (String.length name - Z.to_nat (slashPosition + 1)) name)
  else None.

End Runtime.

(** *** [Notify.sendSMS] *)

Module Notify.

Record SMS := mkSMS {
  to : string;
  text : string
}.

(** What the library finds in the global scope beyond what it defines
    itself: [String.prototype.format] calls a global function [format],
    and the exit callback of [sendSMS] calls [log.error].
    [NewRuleEngine] binds neither, so with the engine's own bindings both
    are missing; a script may define them. *)
Record Globals := mkGlobals {
  hasFormat : bool;
  hasLogError : bool
}.

(** The global scope as [NewRuleEngine] and the library leave it. *)
Definition boundGlobals : Globals := mkGlobals false false.

(** [_smsQueue] holds the [doSend] closures of the messages that wait. *)
Record State := mkState {
  smsQueue : list SMS;
  smsBusy : bool
}.

Inductive Outcome :=
| Returned
| Threw (error : string).

(** [doSend]: [_smsBusy] is set, the line is logged, and the shell command
    for the message is started when its text can be formatted; the call
    of a [format] that is not there throws. *)
Definition doSend (g : Globals) (m : SMS) (st : State) : Outcome * State * list SMS :=
  let st1 := mkState (smsQueue st) true in
  if hasFormat g then (Returned, st1, [m])
  else (Threw "ReferenceError", st1, []).

Definition advanceSmsQueue (g : Globals) (st : State) : Outcome * State * list SMS :=
  match smsQueue st with
  | [] => (Returned, st, [])
  | next :: rest => doSend g next (mkState rest (smsBusy st))
  end.

Definition sendSMS (g : Globals) (m : SMS) (st : State) : Outcome * State * list SMS :=
  if smsBusy st then (Returned, mkState (smsQueue st ++ [m]) (smsBusy st), [])
  else doSend g m st.

(** The exit callback of the shell command: [_smsBusy] is cleared, a
    non-zero exit code is reported with [log.error], and the queue is
    advanced.  What it throws is caught and logged by the wrapper that
    [spawn] puts around it. *)
Definition exitCallback (g : Globals) (exitCode : Z) (st : State)
    : Outcome * State * list SMS :=
  let st1 := mkState (smsQueue st) false in
  if negb (exitCode =? 0) && negb (hasLogError g) then (Threw "TypeError", st1, [])
  else advanceSmsQueue g st1.

(** What happens to the module: a call of [sendSMS], or the exit of a
    command that is running. *)
Inductive Step :=
| Send (m : SMS)
| Exit (exitCode : Z).

(** The state, the number of commands running and the commands started
    along a sequence of steps, after those started before; [None] if a
    command exits while none is running. *)
Fixpoint run (g : Globals) (steps : list Step) (st : State) (running : nat)
    (started : list SMS) : option (State * nat * list SMS) :=
  match steps with
  | [] => Some (st, running, started)
  | Send m :: steps' =>
      let '(_, st1, l) := sendSMS g m st in
      run g steps' st1 (running + length l) (started ++ l)
  | Exit code :: steps' =>
      match running with
      | O => None
      | S others =>
          let '(_, st1, l) := exitCallback g code st in
          run g steps' st1 (others + length l) (started ++ l)
      end
  end.

(** The messages of the [sendSMS] calls of a sequence of steps. *)
Definition requested (steps : list Step) : list SMS :=
  omap (λ s, match s with Send m => Some m | Exit _ => None end) steps.

Definition exits (steps : list Step) : nat :=
  length (omap (λ s, match s with Exit code => Some code | Send _ => None end) steps).


End Notify.

(** Coercions for the examples: numbers and booleans as integers, strings
    as they are. *)
Definition demoCoercions : Coercions :=
  {| ToInt v := match v with JSNum n => n | JSBool true => 1 | _ => 0 end;
     SafeToString v := match v with JSStr s => s | _ => "" end |}.

(** ** Lemmas on the monad *)

Section Proofs.
Context `{!ScriptHost} {platform : Platform}.

Lemma bind_nil {A B} (m : Go A) (k : A → Go B) e a e1 :
  m e = Done a e1 [] → (m ≫= k) e = k a e1.
Proof.
  intros Hm. unfold mbind, Go_bind. rewrite Hm.
  destruct (k a e1); reflexivity.
Qed.

Lemma bind_out {A B} (m : Go A) (k : A → Go B) e a e1 o :
  m e = Done a e1 o → (m ≫= k) e = after o (k a e1).
Proof. intros Hm. unfold mbind, Go_bind. rewrite Hm. reflexivity. Qed.

Lemma bind_panic {A B} (m : Go A) (k : A → Go B) e msg :
  m e = Panic msg → (m ≫= k) e = Panic msg.
Proof. intros Hm. unfold mbind, Go_bind. rewrite Hm. reflexivity. Qed.

Lemma after_nil {A} (res : Res A) : after [] res = res.
Proof. destruct res; reflexivity. Qed.

Lemma after_after {A} o1 o2 (res : Res A) :
  after o1 (after o2 res) = after (o1 ++ o2) res.
Proof. destruct res; simpl; [by rewrite app_assoc | done]. Qed.

Lemma deref_Some rule e r : heap e !! rule = Some r → deref rule e = Done r e [].
Proof. intros Hr. unfold deref. by rewrite Hr. Qed.

Lemma update_Some rule f e r :
  heap e !! rule = Some r → update rule f e = Done tt (withRule rule (f r) e) [].
Proof.
  intros Hr. unfold update, modify, withRule. do 2 f_equal.
  apply list_eq. intros i. destruct (decide (i = rule)) as [->|Hne].
  - rewrite list_lookup_alter_eq, Hr. simpl.
    symmetry. apply list_lookup_insert_eq. by eapply lookup_lt_Some.
  - rewrite list_lookup_alter_ne, list_lookup_insert_ne by done. done.
Qed.

Lemma withRule_lookup (rule : RulePtr) r e :
  (rule < length (heap e))%nat → heap (withRule rule r e) !! rule = Some r.
Proof. intros Hlt. unfold withRule. simpl. by apply list_lookup_insert_eq. Qed.

Ltac go_step :=
  first
    [ erewrite bind_nil by (first [reflexivity | eapply deref_Some; eassumption
                                  | eapply update_Some; eassumption])
    | erewrite bind_out by eassumption
    | erewrite bind_panic by eassumption ].

(** [Check] returns at once on a rule that is not marked when a cell is
    given. *)
Lemma Check_skips (rule : RulePtr) (cell : Cell) (e : RuleEngine) (r : Rule) :
  heap e !! rule = Some r →
  shouldCheck r = false →
  Check rule (Some cell) e = Done tt e [].
Proof.
  intros Hr Hs. unfold Check. go_step. rewrite Hs. reflexivity.
Qed.

Lemma invokeCallback_eq propName key args e :
  invokeCallback propName key args e =
    match getList propName (stash e) !! key with
    | Some (JSFunc f) =>
        match exec f args e with
        | (Some v, e1) => Done (ToBoolean v) e1 [EvCall propName key args]
        | (None, e1) =>
            Done false e1 [EvCall propName key args; EvCallFailed propName key]
        end
    | _ => Done false e [EvCall propName key args; EvCallFailed propName key]
    end.
Proof.
  unfold invokeCallback. go_step.
  erewrite bind_out by reflexivity.
  destruct (getList propName (stash e) !! key) as [[]|]; try reflexivity.
  unfold mbind, Go_bind. destruct (exec f args e) as [[v|] e1]; reflexivity.
Qed.

(** A protected call always returns, and its output starts with the call. *)
Lemma invokeCallback_calls propName key args e :
  ∃ b e1 rest,
    invokeCallback propName key args e = Done b e1 (EvCall propName key args :: rest).
Proof.
  rewrite invokeCallback_eq.
  destruct (getList propName (stash e) !! key) as [[]|]; eauto.
  destruct (exec f args e) as [[v|] e1]; eauto.
Qed.

(** The engine after [storeRuleCell] for each cell of a list. *)
Lemma forEach_storeRuleCell rule cells e :
  ∃ e1, forEach cells (storeRuleCell rule) e = Done tt e1 [] ∧
        heap e1 = heap e ∧ stash e1 = stash e ∧ model e1 = model e ∧
        ruleMap e1 = ruleMap e ∧ ruleList e1 = ruleList e ∧
        notedCells e1 = notedCells e ∧ timers e1 = timers e ∧
        callbackIndex e1 = callbackIndex e ∧
        rulesWithoutCells e1 = rulesWithoutCells e.
Proof.
  revert e. induction cells as [|c cells IH]; intros e; simpl.
  - exists e. repeat split; reflexivity.
  - go_step.
    edestruct IH as (e1 & He1 & IHr).
    exists e1. split; [exact He1|]. exact IHr.
Qed.

(** [storeRuleTrackedCells] touches only the dependency index. *)
Lemma storeRuleTrackedCells_eq rule e r :
  heap e !! rule = Some r →
  ∃ e1, storeRuleTrackedCells rule e =
          Done tt e1 (if bool_decide (0 < size (default ∅ (notedCells e)))%nat
                      then [] else [EvNoCells (name r)]) ∧
        heap e1 = heap e ∧ stash e1 = stash e ∧ model e1 = model e ∧
        ruleMap e1 = ruleMap e ∧ ruleList e1 = ruleList e ∧
        timers e1 = timers e ∧ callbackIndex e1 = callbackIndex e.
Proof.
  intros Hr. unfold storeRuleTrackedCells. go_step.
  case_bool_decide.
  - destruct (forEach_storeRuleCell rule (elements (default ∅ (notedCells e))) e)
      as (e1 & He1 & Hh & Hs & Hm & Hrm & Hrl & _ & Ht & Hc & _).
    erewrite bind_nil by exact He1.
    eexists. split; [reflexivity|]. simpl. auto 10.
  - erewrite bind_out.
    2:{ go_step. erewrite bind_out by reflexivity. reflexivity. }
    simpl. eexists. split; [reflexivity|]. simpl. auto 10.
Qed.

(** A condition evaluation whose script callable [f] leaves [res]. *)
Lemma invokeCond_eq rule e r f res e1 r1 :
  heap e !! rule = Some r →
  getList ruleFuncs (stash e) !! cond r = Some (JSFunc f) →
  exec f None (set_notedCells (Some ∅) e) = (res, e1) →
  heap e1 !! rule = Some r1 →
  ∃ e2 out,
    invokeCond rule e =
      Done (from_option ToBoolean false res) e2
           (EvCall ruleFuncs (cond r) None ::
            match res with
            | Some _ => out
            | None => EvCallFailed ruleFuncs (cond r) :: out
            end) ∧
    heap e2 = heap e1 ∧ stash e2 = stash e1 ∧ model e2 = model e1 ∧
    ruleMap e2 = ruleMap e1 ∧ ruleList e2 = ruleList e1 ∧
    (∀ ev, ev ∈ out → ev = EvNoCells (name r1)).
Proof.
  intros Hr Hf Hx Hr1. unfold invokeCond, startTrackingCells.
  go_step. erewrite bind_nil by (apply deref_Some; exact Hr).
  destruct (storeRuleTrackedCells_eq rule e1 r1 Hr1)
    as (e2 & He2 & Hh & Hs & Hm & Hrm & Hrl & _).
  destruct res as [v|].
  all: erewrite bind_out;
    [|rewrite invokeCallback_eq;
      change (stash (set_notedCells (Some ∅) e)) with (stash e);
      rewrite Hf, Hx; reflexivity].
  all: erewrite bind_out by exact He2; simpl.
  all: eexists e2, _; split; [reflexivity|].
  all: repeat split; try assumption.
  all: intros ev Hev; destruct (bool_decide _);
    [by apply not_elem_of_nil in Hev | by apply list_elem_of_singleton in Hev].
Qed.

(** [Check] on an edge-triggered rule, from the condition's return on. *)
Lemma Check_edge_eq (rule : RulePtr) (cell : option Cell)
    (e e1 : RuleEngine) (r r1 : Rule) (current : bool) (out1 : list Event) :
  heap e !! rule = Some r →
  ruleType r = RULE_TYPE_EDGE_TRIGGERED →
  cell = None ∨ shouldCheck r = true →
  invokeCond rule e = Done current e1 out1 →
  heap e1 !! rule = Some r1 →
  let fire := current && (firstRun r1 || negb (eqb current (prevCondValue r1))) in
  let r2 := set_shouldCheck false (set_firstRun false (set_prevCondValue current r1)) in
  let e2 := withRule rule r2 e1 in
  Check rule cell e =
    after out1 (if fire
                then (invokeCallback ruleFuncs (then_ r1) None ;; mret tt) e2
                else Done tt e2 []).
Proof.
  intros Hr Ht Hc Hcond Hr1 fire r2 e2.
  assert (Hlt : (rule < length (heap e1))%nat) by (by eapply lookup_lt_Some).
  unfold Check. go_step.
  replace (bool_decide (cell ≠ None) && negb (shouldCheck r)) with false.
  2:{ destruct Hc as [-> | ->]; [|by rewrite andb_false_r].
      by rewrite bool_decide_false by (intros Hn; by apply Hn). }
  rewrite Ht. simpl.
  set (e1a := withRule rule (set_prevCondValue current r1) e1).
  set (e1b := withRule rule (set_firstRun false (set_prevCondValue current r1)) e1).
  assert (Ha : heap e1a !! rule = Some (set_prevCondValue current r1))
    by (by apply withRule_lookup).
  assert (Hb : heap e1b !! rule = Some (set_firstRun false (set_prevCondValue current r1)))
    by (by apply withRule_lookup).
  assert (Hab : withRule rule (set_firstRun false (set_prevCondValue current r1)) e1a = e1b).
  { unfold e1a, e1b, withRule. simpl. by rewrite list_insert_insert_eq. }
  assert (Hbc : withRule rule r2 e1b = e2).
  { unfold e1b, e2, withRule. simpl. by rewrite list_insert_insert_eq. }
  assert (H2 : heap e2 !! rule = Some r2) by (by apply withRule_lookup).
  erewrite bind_out.
  2:{ erewrite bind_out by exact Hcond.
      go_step. erewrite bind_nil by (apply update_Some; exact Hr1).
      reflexivity. }
  simpl. rewrite app_nil_r. f_equal.
  erewrite bind_nil by (apply update_Some; exact Ha).
  fold e1a. rewrite Hab.
  erewrite bind_nil by (apply update_Some; exact Hb).
  fold r2. rewrite Hbc. fold fire.
  destruct fire; [|reflexivity].
  erewrite bind_nil by (apply deref_Some; exact H2).
  reflexivity.
Qed.

(** A level-triggered rule fires exactly when its condition returned true. *)
Lemma Check_level_triggered (rule : RulePtr) (cell : option Cell)
    (e e1 : RuleEngine) (r r1 : Rule) (current : bool) (out1 : list Event) :
  heap e !! rule = Some r →
  ruleType r = RULE_TYPE_LEVEL_TRIGGERED →
  cell = None ∨ shouldCheck r = true →
  invokeCond rule e = Done current e1 out1 →
  heap e1 !! rule = Some r1 →
  let e2 := withRule rule (set_shouldCheck false (set_firstRun false r1)) e1 in
  Check rule cell e =
    after out1 (if current
                then (invokeCallback ruleFuncs (then_ r1) None ;; mret tt) e2
                else Done tt e2 []).
Proof.
  intros Hr Ht Hc Hcond Hr1 e2.
  assert (Hlt : (rule < length (heap e1))%nat) by (by eapply lookup_lt_Some).
  unfold Check. go_step.
  replace (bool_decide (cell ≠ None) && negb (shouldCheck r)) with false.
  2:{ destruct Hc as [-> | ->]; [|by rewrite andb_false_r].
      by rewrite bool_decide_false by (intros Hn; by apply Hn). }
  rewrite Ht. simpl.
  set (e1a := withRule rule (set_firstRun false r1) e1).
  assert (Ha : heap e1a !! rule = Some (set_firstRun false r1))
    by (by apply withRule_lookup).
  assert (Hab : withRule rule (set_shouldCheck false (set_firstRun false r1)) e1a = e2).
  { unfold e1a, e2, withRule. simpl. by rewrite list_insert_insert_eq. }
  assert (H2 : heap e2 !! rule = Some (set_shouldCheck false (set_firstRun false r1)))
    by (by apply withRule_lookup).
  erewrite bind_out by (erewrite bind_out by exact Hcond; reflexivity).
  simpl. rewrite app_nil_r. f_equal.
  erewrite bind_nil by (apply update_Some; exact Hr1).
  fold e1a.
  erewrite bind_nil by (apply update_Some; exact Ha).
  rewrite Hab.
  destruct current; [|reflexivity].
  erewrite bind_nil by (apply deref_Some; exact H2).
  reflexivity.
Qed.

(** C1: when [Check] evaluates the condition of an edge-triggered rule and
    the condition returns [current], the body is invoked if and only if
    [current && (firstRun || current != prevCondValue)] holds of the rule's
    flags, and the rule carries [prevCondValue = current] from then on:
    when the body is called, and when [Check] returns without calling it. *)
Theorem Check_edge_triggered (rule : RulePtr) (cell : option Cell)
    (e e1 : RuleEngine) (r r1 : Rule) (current : bool) (out1 : list Event) :
  heap e !! rule = Some r →
  ruleType r = RULE_TYPE_EDGE_TRIGGERED →
  cell = None ∨ shouldCheck r = true →
  invokeCond rule e = Done current e1 out1 →
  heap e1 !! rule = Some r1 →
  let fire := current && (firstRun r1 || negb (eqb current (prevCondValue r1))) in
  let r2 := set_shouldCheck false (set_firstRun false (set_prevCondValue current r1)) in
  let e2 := withRule rule r2 e1 in
  (prevCondValue <$> heap e2 !! rule) = Some current ∧
  Check rule cell e =
    after out1 (if fire
                then (invokeCallback ruleFuncs (then_ r1) None ;; mret tt) e2
                else Done tt e2 []).
Proof.
  intros Hr Ht Hc Hcond Hr1 fire r2 e2. split.
  - unfold e2. rewrite withRule_lookup by (by eapply lookup_lt_Some). reflexivity.
  - exact (Check_edge_eq rule cell e e1 r r1 current out1 Hr Ht Hc Hcond Hr1).
Qed.

(** C2, as the code has it: when the script condition of a level- or
    edge-triggered rule throws, the pass takes the condition for false: the
    only script call of the pass is the failed call of the condition, so the
    body does not fire; for an edge-triggered rule the pass stores
    [prevCondValue = false]. *)
Theorem Check_condition_throws (rule : RulePtr) (cell : option Cell)
    (e e1 : RuleEngine) (r r1 : Rule) (f : nat) :
  heap e !! rule = Some r →
  ruleType r = RULE_TYPE_LEVEL_TRIGGERED ∨ ruleType r = RULE_TYPE_EDGE_TRIGGERED →
  cell = None ∨ shouldCheck r = true →
  getList ruleFuncs (stash e) !! cond r = Some (JSFunc f) →
  exec f None (set_notedCells (Some ∅) e) = (None, e1) →
  heap e1 !! rule = Some r1 →
  ∃ e2 out,
    Check rule cell e =
      Done tt e2 (EvCall ruleFuncs (cond r) None :: EvCallFailed ruleFuncs (cond r) :: out) ∧
    (∀ ev, ev ∈ out → ev = EvNoCells (name r1)) ∧
    heap e2 !! rule =
      Some (set_shouldCheck false (set_firstRun false
              (if ruleType r =? RULE_TYPE_EDGE_TRIGGERED
               then set_prevCondValue false r1 else r1))).
Proof.
  intros Hr Ht Hc Hf Hx Hr1.
  destruct (invokeCond_eq rule e r f None e1 r1 Hr Hf Hx Hr1)
    as (e1' & out & Hcond & Hh & _ & _ & _ & _ & Hout).
  simpl in Hcond.
  assert (Hr1' : heap e1' !! rule = Some r1) by (by rewrite Hh).
  assert (Hlt : (rule < length (heap e1'))%nat) by (by eapply lookup_lt_Some).
  destruct Ht as [Ht | Ht].
  - rewrite (Check_level_triggered rule cell e e1' r r1 false _ Hr Ht Hc Hcond Hr1').
    rewrite Ht. simpl. rewrite app_nil_r.
    eexists _, out. split; [reflexivity|]. split; [exact Hout|].
    by apply withRule_lookup.
  - rewrite (Check_edge_eq rule cell e e1' r r1 false _ Hr Ht Hc Hcond Hr1').
    rewrite Ht. simpl. rewrite app_nil_r.
    eexists _, out. split; [reflexivity|]. split; [exact Hout|].
    by apply withRule_lookup.
Qed.

Lemma markAll_lookup rules h (p : RulePtr) :
  markAll rules h !! p =
    if bool_decide (p ∈ rules) then set_shouldCheck true <$> h !! p else h !! p.
Proof.
  revert h. induction rules as [|q rules IH]; intros h; simpl.
  - reflexivity.
  - unfold markAll in *. simpl. rewrite IH.
    destruct (decide (p = q)) as [->|Hne].
    + rewrite list_lookup_alter_eq.
      rewrite (bool_decide_true (q ∈ q :: rules)) by (by left).
      destruct (h !! q) as [r|]; simpl; by destruct (bool_decide _).
    + rewrite list_lookup_alter_ne by done.
      destruct (decide (p ∈ rules)) as [Hin|Hnin].
      * by rewrite !bool_decide_true by (done || by right).
      * rewrite !bool_decide_false; [done| |done].
        intros [?|?]%elem_of_cons; done.
Qed.

Lemma forEach_ShouldCheck rules e :
  forEach rules ShouldCheck e = Done tt (set_heap (markAll rules (heap e)) e) [].
Proof.
  revert e. induction rules as [|q rules IH]; intros e; simpl.
  - by destruct e.
  - unfold ShouldCheck at 1, update. go_step. rewrite IH. reflexivity.
Qed.

(** The marking phase of [RunRules]: the rules indexed under the cell are
    marked when the cell is complete, the rules without cells always. *)
Lemma markRules_eq (spec : CellSpec) (e : RuleEngine) :
  let cell := (DevName_ spec, CellName_ spec) in
  let indexed :=
    if from_option cellComplete false (model e !! cell)
    then default [] (cellToRuleMap e !! cell) else [] in
  markRules spec e =
    Done cell
      (set_heap (markAll (indexed ++ elements (rulesWithoutCells e)) (heap e)) e) [].
Proof.
  intros cell indexed. unfold markRules, getCell. go_step. fold cell.
  unfold IsComplete. go_step.
  unfold indexed, markAll. rewrite foldl_app. fold markAll.
  destruct (from_option cellComplete false (model e !! cell)).
  - destruct (cellToRuleMap e !! cell) as [l|] eqn:Hl; simpl.
    + erewrite bind_nil
        by (go_step; rewrite Hl; apply forEach_ShouldCheck).
      go_step. erewrite bind_nil by apply forEach_ShouldCheck.
      reflexivity.
    + erewrite bind_nil by (go_step; rewrite Hl; reflexivity).
      go_step. erewrite bind_nil by apply forEach_ShouldCheck.
      reflexivity.
  - go_step. go_step. erewrite bind_nil by apply forEach_ShouldCheck.
    reflexivity.
Qed.

(** C3, as the code has it: when the changed cell is not complete, the
    marking of [RunRules] sets [shouldCheck] on the rules of
    [rulesWithoutCells] and on no others; the rules indexed under the cell
    in [cellToRuleMap] keep their flag unless they are in
    [rulesWithoutCells] too. *)
Theorem markRules_incomplete_cell (spec : CellSpec) (e : RuleEngine) :
  from_option cellComplete false (model e !! (DevName_ spec, CellName_ spec)) = false →
  ∃ e1,
    markRules spec e = Done (DevName_ spec, CellName_ spec) e1 [] ∧
    sameButHeap e e1 ∧
    ∀ p : RulePtr,
      heap e1 !! p =
        if bool_decide (p ∈ rulesWithoutCells e)
        then set_shouldCheck true <$> heap e !! p
        else heap e !! p.
Proof.
  intros Hc. eexists. split; [|split].
  - rewrite markRules_eq. rewrite Hc. reflexivity.
  - repeat split.
  - intros p. simpl. rewrite markAll_lookup.
    destruct (decide (p ∈ rulesWithoutCells e)) as [Hin|Hnin].
    + rewrite !bool_decide_true; [done|done|]. by apply elem_of_elements.
    + rewrite !bool_decide_false; [done|done|]. by rewrite elem_of_elements.
Qed.

Lemma slotLoopBody_eq entry e slot rest :
  timers e = slot :: rest →
  slotLoopBody entry 1 e =
    Done Break
      (match slot with
       | None => set_timers (Some entry :: rest) e
       | Some _ => e
       end) [].
Proof.
  intros Ht. unfold slotLoopBody.
  assert (Hb : (0 <=? 1 - 1) && (1 - 1 <? Z.of_nat (length (timers e))) = true).
  { rewrite Ht. apply andb_true_iff.
    split; [apply Z.leb_le | apply Z.ltb_lt]; simpl; lia. }
  erewrite bind_nil by (unfold timerAt; rewrite Hb, Ht; reflexivity).
  simpl. destruct slot as [old|].
  - go_step. reflexivity.
  - erewrite bind_nil by (unfold setTimerAt; rewrite Hb, Ht; reflexivity).
    reflexivity.
Qed.

(** The slot loop leaves [n = 1] whatever the table holds: its body runs at
    most once. *)
Lemma slotLoop_eq fuel entry e :
  slotLoop (S fuel) entry 1 e =
    Done 1
      (match timers e with
       | None :: rest => set_timers (Some entry :: rest) e
       | _ => e
       end) [].
Proof.
  simpl. go_step.
  destruct (timers e) as [|slot rest] eqn:Ht.
  - simpl. reflexivity.
  - replace (1 <=? Z.of_nat (length (slot :: rest))) with true
      by (symmetry; apply Z.leb_le; simpl; lia).
    erewrite bind_nil by (apply slotLoopBody_eq; exact Ht).
    destruct slot; reflexivity.
Qed.

Lemma newTimer_eq (id d : Z) (periodic : bool) (e : RuleEngine) :
  newTimer id d periodic e =
    if periodic && (d <=? 0) then Panic "non-positive interval for NewTicker"
    else Done tt e [].
Proof. unfold newTimer. by destruct (periodic && (d <=? 0)). Qed.

(** [esWbStartTimer] hands out the id 1 on every valid call from which
    [newTimer] returns. *)
Lemma esWbStartTimer_returns_1 (f : nat) (ms : Z) (p : JSValue) (e : RuleEngine) :
  ToBoolean p && (toDuration ms <=? 0) = false →
  ∃ e1, esWbStartTimer [JSFunc f; JSNum ms; p] e = Done (Ret1 (JSNum 1)) e1 [].
Proof.
  intros Hd. unfold esWbStartTimer. go_step.
  erewrite bind_nil by apply slotLoop_eq.
  go_step.
  match goal with
  | |- context [if ?b then _ else _] => destruct b
  end.
  - go_step. unfold storeCallbackAt. go_step.
    erewrite bind_nil by (rewrite newTimer_eq, Hd; reflexivity).
    eexists. reflexivity.
  - go_step. unfold storeCallbackAt. go_step.
    erewrite bind_nil by (rewrite newTimer_eq, Hd; reflexivity).
    eexists. reflexivity.
Qed.

(** [stopTimer] with the id 0, or with the id of a free slot of the table,
    logs and changes nothing. *)
Lemma esWbStopTimer_free_slot (n : Z) (e : RuleEngine) :
  n = 0 ∨ (1 ≤ n ≤ Z.of_nat (length (timers e)) ∧ timers e !! Z.to_nat (n - 1) = Some None) →
  esWbStopTimer [JSNum n] e =
    Done Ret0 e [if n =? 0 then EvTimerIdZero else EvStopUnknownTimer n].
Proof.
  intros [-> | [Hn Hslot]]; [reflexivity|].
  unfold esWbStopTimer.
  replace (n =? 0) with false by (symmetry; apply Z.eqb_neq; lia).
  erewrite bind_nil.
  2:{ unfold timerAt.
      replace ((0 <=? n - 1) && (n - 1 <? Z.of_nat (length (timers e)))) with true
        by (symmetry; apply andb_true_iff; split;
            [apply Z.leb_le | apply Z.ltb_lt]; lia).
      rewrite Hslot. reflexivity. }
  reflexivity.
Qed.

(** [stopTimer] with an id outside the table does not come back. *)
Lemma esWbStopTimer_outside_table (n : Z) (e : RuleEngine) :
  n < 0 ∨ Z.of_nat (length (timers e)) < n →
  esWbStopTimer [JSNum n] e = Panic "index out of range".
Proof.
  intros Hn. unfold esWbStopTimer.
  replace (n =? 0) with false by (symmetry; apply Z.eqb_neq; lia).
  apply bind_panic. unfold timerAt.
  replace ((0 <=? n - 1) && (n - 1 <? Z.of_nat (length (timers e)))) with false;
    [reflexivity|].
  symmetry. apply andb_false_iff.
  destruct Hn; [left; apply Z.leb_gt | right; apply Z.ltb_ge]; lia.
Qed.

(** C8: the function [wrapConditionFunc] returns runs the user condition
    with [requireCompleteCells] one higher and takes the one off again
    however the condition ends; a value is passed on (as a boolean when
    [incompleteValue] is one), [IncompleteCellCaught] becomes
    [incompleteValue], any other exception propagates.  While the counter
    is positive, reading an incomplete cell through the device proxy throws
    [IncompleteCellCaught]; so a [when]/[asSoonAs] condition that reads
    such a cell yields false and leaves the counter as it was. *)
Theorem wrapConditionFunc_protects (f : Lib.JS JSValue) (incompleteValue : JSValue)
    (st : Lib.State) (devName cellName : string) :
  let conv := λ v, match incompleteValue with
                   | JSBool _ => JSBool (ToBoolean v)
                   | _ => v
                   end in
  let run := f (Lib.mkState (Lib.requireCompleteCells st + 1) (Lib.engine st)) in
  Lib.wrapConditionFunc f incompleteValue st =
    (match run.1 with
     | Lib.Return v => Lib.Return (conv v)
     | Lib.Throw (Lib.IncompleteCellCaught _) => Lib.Return incompleteValue
     | Lib.Throw e => Lib.Throw e
     end,
     Lib.mkState (Lib.requireCompleteCells run.2 - 1) (Lib.engine run.2)) ∧
  (0 < Lib.requireCompleteCells st →
   from_option cellComplete false (model (Lib.engine st) !! (devName, cellName)) = false →
   (Lib.devGet devName cellName st).1 = Lib.Throw (Lib.IncompleteCellCaught cellName) ∧
   Lib.requireCompleteCells (Lib.devGet devName cellName st).2 = Lib.requireCompleteCells st) ∧
  (0 ≤ Lib.requireCompleteCells st →
   from_option cellComplete false (model (Lib.engine st) !! (devName, cellName)) = false →
   (Lib.wrapWhen (Lib.devGet devName cellName) st).1 = Lib.Return (JSBool false) ∧
   Lib.requireCompleteCells (Lib.wrapWhen (Lib.devGet devName cellName) st).2 =
     Lib.requireCompleteCells st).
Proof.
  intros conv run.
  assert (Hget : ∀ st0, Lib.requireCompleteCells st0 ≠ 0 →
    from_option cellComplete false (model (Lib.engine st0) !! (devName, cellName)) = false →
    (Lib.devGet devName cellName st0).1 = Lib.Throw (Lib.IncompleteCellCaught cellName) ∧
    Lib.requireCompleteCells (Lib.devGet devName cellName st0).2 =
      Lib.requireCompleteCells st0).
  { intros st0 Hpos Hinc.
    unfold Lib.devGet, mbind, Lib.JS_bind. simpl.
    replace (Lib.requireCompleteCells st0 =? 0) with false
      by (symmetry; apply Z.eqb_neq; lia).
    simpl. unfold Lib.cell_isComplete, Lib.bridge, trackCell, IsComplete.
    simpl. destruct (notedCells (Lib.engine st0)); simpl; rewrite Hinc; simpl; done. }
  split; [|split].
  - unfold Lib.wrapConditionFunc, Lib.tryFinally, Lib.tryCatch, mbind, Lib.JS_bind.
    simpl. fold run. destruct run as [[v|[name|msg]] st2]; simpl.
    + unfold conv. destruct incompleteValue; reflexivity.
    + reflexivity.
    + reflexivity.
  - intros Hpos Hinc. apply Hget; [lia | done].
  - intros Hpos Hinc.
    destruct (Hget (Lib.mkState (Lib.requireCompleteCells st + 1) (Lib.engine st)))
      as [Hthrow Hcount]; [simpl; lia | done |].
    simpl in Hcount.
    unfold Lib.wrapWhen, Lib.wrapConditionFunc, Lib.tryFinally, Lib.tryCatch,
      mbind, Lib.JS_bind.
    simpl.
    destruct (Lib.devGet devName cellName
                (Lib.mkState (Lib.requireCompleteCells st + 1) (Lib.engine st)))
      as [c st2].
    simpl in Hthrow, Hcount. subst c. simpl. split; [reflexivity | lia].
Qed.

Lemma indexGrows_refl e : indexGrows e e.
Proof.
  split; [|done]. intros c l Hl. exists []. by rewrite app_nil_r.
Qed.

Lemma indexGrows_trans e1 e2 e3 :
  indexGrows e1 e2 → indexGrows e2 e3 → indexGrows e1 e3.
Proof.
  intros [H12 S12] [H23 S23]. split; [|set_solver].
  intros c l Hl. destruct (H12 c l Hl) as [l1 Hl1].
  destruct (H23 c _ Hl1) as [l2 Hl2]. exists (l1 ++ l2).
  by rewrite app_assoc.
Qed.

Lemma indexGrows_same e e1 :
  cellToRuleMap e1 = cellToRuleMap e →
  rulesWithoutCells e1 = rulesWithoutCells e →
  indexGrows e e1.
Proof.
  intros Hc Hr. split; [|by rewrite Hr].
  intros c l Hl. exists []. by rewrite Hc, app_nil_r.
Qed.

Lemma indexedUnder_grows e e1 rule cells :
  indexGrows e e1 → indexedUnder e rule cells → indexedUnder e1 rule cells.
Proof.
  intros [Hg _] Hi w Hw. destruct (Hi w Hw) as (l & Hl & Hin).
  destruct (Hg w l Hl) as [l' Hl']. exists (l ++ l').
  split; [done|]. apply elem_of_app. by left.
Qed.

Lemma storeRuleCell_eq rule cell e :
  storeRuleCell rule cell e =
    Done tt (set_cellToRuleMap
               (<[cell := default [] (cellToRuleMap e !! cell) ++ [rule]]>
                  (cellToRuleMap e)) e) [].
Proof. reflexivity. Qed.

Lemma storeRuleCell_grows rule cell e e1 out :
  storeRuleCell rule cell e = Done tt e1 out →
  indexGrows e e1 ∧ indexedUnder e1 rule [cell].
Proof.
  rewrite storeRuleCell_eq. intros [= <- <-]. split; [split|]; simpl.
  - intros c l Hl. destruct (decide (c = cell)) as [->|Hne].
    + rewrite lookup_insert_eq, Hl. simpl. by eexists.
    + rewrite lookup_insert_ne by done. exists []. by rewrite app_nil_r.
  - done.
  - intros w ->%list_elem_of_singleton. simpl.
    rewrite lookup_insert_eq. eexists. split; [done|].
    apply elem_of_app. right. by apply list_elem_of_singleton.
Qed.

Lemma update_last (h : list Rule) (r : Rule) (f : Rule → Rule) (e : RuleEngine) :
  heap e = h ++ [r] →
  update (length h) f e = Done tt (set_heap (h ++ [f r]) e) [].
Proof.
  intros Hh. unfold update, modify. do 2 f_equal. rewrite Hh.
  apply list_eq. intros i. destruct (decide (i = length h)) as [->|Hne].
  - rewrite list_lookup_alter_eq.
    rewrite !lookup_app_r by lia. by rewrite Nat.sub_diag.
  - rewrite list_lookup_alter_ne by done.
    destruct (decide (i < length h)%nat).
    + by rewrite !lookup_app_l by lia.
    + rewrite !lookup_ge_None_2; [done| |]; rewrite length_app; simpl; lia.
Qed.

(** The loop of [newRule] over the watched cells: the rule under
    construction, last in the heap, collects the cells and is listed under
    each of them. *)
Lemma storeWatchCells_eq (cellNames : list string) (h : list Rule) (r : Rule) (e : RuleEngine) :
  heap e = h ++ [r] →
  ∃ res e1 cells,
    storeWatchCells (length h) cellNames e = Done res e1 [] ∧
    heap e1 = h ++ [set_onCellChange (onCellChange r ++ cells) r] ∧
    model e1 = model e ∧ stash e1 = stash e ∧ timers e1 = timers e ∧
    callbackIndex e1 = callbackIndex e ∧ ruleMap e1 = ruleMap e ∧
    ruleList e1 = ruleList e ∧ notedCells e1 = notedCells e ∧
    indexGrows e e1 ∧ indexedUnder e1 (length h) cells.
Proof.
  revert r e. induction cellNames as [|fullName rest IH]; intros r e Hh; simpl.
  - exists (inl tt), e, []. rewrite app_nil_r.
    split; [reflexivity|]. split; [by destruct r|].
    do 7 (split; [done|]). split; [apply indexGrows_refl|].
    intros w Hw. by apply not_elem_of_nil in Hw.
  - destruct (splitSlash fullName) as [[devName cellName]|].
    2:{ eexists (inr _), e, []. rewrite app_nil_r.
        split; [reflexivity|]. split; [by destruct r|].
        do 7 (split; [done|]). split; [apply indexGrows_refl|].
        intros w Hw. by apply not_elem_of_nil in Hw. }
    unfold getCell. go_step.
    erewrite bind_nil by (apply update_last; exact Hh).
    erewrite bind_nil by apply storeRuleCell_eq.
    set (r1 := set_onCellChange (onCellChange r ++ [(devName, cellName)]) r).
    set (e0 := set_heap (h ++ [r1]) e).
    set (e1 := set_cellToRuleMap _ e0).
    destruct (storeRuleCell_grows (length h) (devName, cellName) e0 e1 []
                (storeRuleCell_eq _ _ _)) as [Hg0 Hi0].
    destruct (IH r1 e1 eq_refl)
      as (res & e2 & cells & Hrun & Hheap & Hm & Hs & Ht & Hc & Hrm & Hrl & Hn & Hg & Hi).
    exists res, e2, ((devName, cellName) :: cells).
    split; [exact Hrun|]. split.
    { rewrite Hheap. unfold r1. simpl. by rewrite <- app_assoc. }
    do 7 (split; [etrans; [eassumption|reflexivity]|]).
    split.
    + eapply indexGrows_trans; [|exact Hg].
      eapply indexGrows_trans; [|exact Hg0].
      by apply indexGrows_same.
    + intros w [->|Hw]%elem_of_cons.
      * eapply indexedUnder_grows; [exact Hg|exact Hi0|]. by left.
      * by apply Hi.
Qed.

Ltac newRule_done :=
  eexists _, _, _; split; [reflexivity|]; simpl;
  split; [reflexivity|]; do 10 (split; [reflexivity|]);
  split; [by apply indexGrows_same|];
  intros p Hp; inversion Hp; subst; simpl;
  (split; [reflexivity|
   split; [intros w Hw; by apply not_elem_of_nil in Hw | auto]]).

(** [newRule] returns, logs nothing, and leaves one new object at the end
    of the heap: a rule in its initial latched state which, when the
    definition is accepted, is listed under each cell it watches. *)
Lemma newRule_eq (nm : string) (def : JSValue) (e : RuleEngine) :
  ∃ res e1 r,
    newRule nm def e = Done res e1 [] ∧
    heap e1 = heap e ++ [r] ∧
    name r = nm ∧ firstRun r = true ∧ prevCondValue r = false ∧
    oldCellValue r = VNil ∧ shouldCheck r = false ∧
    model e1 = model e ∧ timers e1 = timers e ∧ ruleMap e1 = ruleMap e ∧
    ruleList e1 = ruleList e ∧ notedCells e1 = notedCells e ∧
    indexGrows e e1 ∧
    ∀ p, res = inl p →
      p = length (heap e) ∧ indexedUnder e1 p (onCellChange r) ∧
      (ruleType r = RULE_TYPE_LEVEL_TRIGGERED ∨
       ruleType r = RULE_TYPE_EDGE_TRIGGERED ∨
       ruleType r = RULE_TYPE_ON_CELL_CHANGE).
Proof.
  unfold newRule. go_step. go_step.
  destruct (HasPropString def "then"); simpl; [|newRule_done].
  erewrite bind_nil by reflexivity.
  erewrite bind_nil by (apply update_last; reflexivity).
  destruct (HasPropString def "when"); simpl.
  { destruct (HasPropString def "asSoonAs" || HasPropString def "onCellChange");
      [newRule_done|].
    erewrite bind_nil by reflexivity.
    erewrite bind_nil by (apply update_last; reflexivity).
    erewrite bind_nil by (apply update_last; reflexivity).
    newRule_done. }
  destruct (HasPropString def "asSoonAs"); simpl.
  { destruct (HasPropString def "onCellChange"); [newRule_done|].
    erewrite bind_nil by reflexivity.
    erewrite bind_nil by (apply update_last; reflexivity).
    erewrite bind_nil by (apply update_last; reflexivity).
    newRule_done. }
  destruct (HasPropString def "onCellChange"); simpl; [|newRule_done].
  match goal with
  | |- context [if ?b then _ else _] => destruct b
  end; [newRule_done|].
  erewrite bind_nil by (apply update_last; reflexivity).
  match goal with
  | |- context [storeWatchCells _ ?names] =>
      match goal with
      | |- context [set_heap (heap e ++ [?r]) ?e0] =>
          destruct (storeWatchCells_eq names (heap e) r (set_heap (heap e ++ [r]) e0) eq_refl)
            as (res & e1 & cells & Hrun & Hheap & Hm & Hs & Ht & Hc & Hrm & Hrl & Hn & Hg & Hi)
      end
  end.
  erewrite bind_nil by exact Hrun.
  simpl in *.
  destruct res as [[]|err].
  - eexists _, e1, _. split; [reflexivity|]. split; [exact Hheap|]. simpl.
    do 10 (split; [done|]).
    split; [eapply indexGrows_trans; [|exact Hg]; by apply indexGrows_same|].
    intros p Hp. inversion Hp; subst. auto.
  - eexists _, e1, _. split; [reflexivity|]. split; [exact Hheap|]. simpl.
    do 10 (split; [done|]).
    split; [eapply indexGrows_trans; [|exact Hg]; by apply indexGrows_same|].
    intros p Hp. inversion Hp.
Qed.

(** [Destroy] deletes the two handles of the rule from [ruleFuncs], sets
    its type to [RULE_TYPE_NONE], and does nothing else. *)
Lemma Destroy_eq (rule : RulePtr) (e : RuleEngine) (r : Rule) :
  heap e !! rule = Some r →
  ∃ e1,
    Destroy rule e = Done tt e1 [] ∧
    heap e1 = <[rule := set_ruleType RULE_TYPE_NONE r]> (heap e) ∧
    (cond r ≠ 0 → getList ruleFuncs (stash e1) !! cond r = None) ∧
    (then_ r ≠ 0 → getList ruleFuncs (stash e1) !! then_ r = None) ∧
    getList ruleEngineTimers (stash e1) = getList ruleEngineTimers (stash e) ∧
    getList processes (stash e1) = getList processes (stash e) ∧
    model e1 = model e ∧ timers e1 = timers e ∧
    callbackIndex e1 = callbackIndex e ∧ ruleMap e1 = ruleMap e ∧
    ruleList e1 = ruleList e ∧ notedCells e1 = notedCells e ∧
    cellToRuleMap e1 = cellToRuleMap e ∧
    rulesWithoutCells e1 = rulesWithoutCells e.
Proof.
  intros Hr. unfold Destroy. go_step.
  assert (Hlt : (rule < length (heap e))%nat) by (by eapply lookup_lt_Some).
  destruct (bool_decide (cond r ≠ 0)) eqn:Hc;
    destruct (bool_decide (then_ r ≠ 0)) eqn:Ht.
  all: erewrite bind_nil by reflexivity.
  all: erewrite bind_nil by (apply deref_Some; exact Hr).
  all: rewrite Ht.
  all: erewrite bind_nil by reflexivity.
  all: erewrite update_Some by exact Hr.
  all: eexists; split; [reflexivity|]; simpl.
  all: split; [reflexivity|].
  all: split;
    [intros Hne; first
       [ by rewrite (bool_decide_true _ Hne) in Hc
       | destruct (decide (cond r = then_ r)) as [Heq|Hd];
         [ rewrite Heq; apply lookup_delete_eq
         | rewrite lookup_delete_ne by done; apply lookup_delete_eq ]
       | apply lookup_delete_eq ] |].
  all: split;
    [intros Hne; first
       [ by rewrite (bool_decide_true _ Hne) in Ht
       | apply lookup_delete_eq ] |].
  all: repeat split; reflexivity.
Qed.

(** C6: a valid [defineRule] under a name the registry holds destroys the
    old rule -- its condition and body handles are gone from [ruleFuncs],
    its type is [RULE_TYPE_NONE] -- and leaves [ruleList] as it was, so the
    name keeps its place in the iteration order and now resolves to the new
    rule; under a fresh name, the name is appended at the end of
    [ruleList].  Either way the new rule starts with [firstRun] true. *)
Theorem esWbDefineRule_replaces_in_place (nm : string) (def : JSValue)
    (e e1 : RuleEngine) (p : RulePtr) (out : list Event) :
  IsObject def = true →
  newRule nm def e = Done (inl p) e1 out →
  (∀ old, ruleMap e !! nm = Some old → is_Some (heap e !! old)) →
  ∃ e2,
    esWbDefineRule [JSStr nm; def] e = Done Ret0 e2 [] ∧
    ruleMap e2 = <[nm := p]> (ruleMap e) ∧
    (firstRun <$> heap e2 !! p) = Some true ∧
    match ruleMap e !! nm with
    | Some old =>
        ∃ rOld,
          heap e !! old = Some rOld ∧
          ruleList e2 = ruleList e ∧
          (ruleType <$> heap e2 !! old) = Some RULE_TYPE_NONE ∧
          (cond rOld ≠ 0 → getList ruleFuncs (stash e2) !! cond rOld = None) ∧
          (then_ rOld ≠ 0 → getList ruleFuncs (stash e2) !! then_ rOld = None)
    | None => ruleList e2 = ruleList e ++ [nm]
    end.
Proof.
  intros Hobj Hnew Hlive.
  destruct (newRule_eq nm def e)
    as (res & e1' & r & Hrun & Hheap & _ & Hfirst & _ & _ & _ & _ & _ & Hrm & Hrl & _ & _ & Hres).
  rewrite Hrun in Hnew. injection Hnew as Hp He1 Hout. subst res e1 out.
  destruct (Hres p eq_refl) as (Hlen & _ & _).
  unfold esWbDefineRule. rewrite Hobj. simpl.
  erewrite bind_nil by exact Hrun. simpl.
  go_step. rewrite Hrm.
  destruct (ruleMap e !! nm) as [old|] eqn:Hold.
  - destruct (Hlive old eq_refl) as [rOld HrOld].
    assert (Hlt : (old < length (heap e))%nat) by (by eapply lookup_lt_Some).
    assert (HrOld1 : heap e1' !! old = Some rOld)
      by (by rewrite Hheap, lookup_app_l).
    destruct (Destroy_eq old e1' rOld HrOld1)
      as (e2 & Hd & Hh2 & Hc2 & Ht2 & _ & _ & _ & _ & _ & Hrm2 & Hrl2 & _).
    erewrite bind_nil by exact Hd.
    go_step.
    eexists. split; [reflexivity|]. simpl. rewrite Hrm2, Hrm, Hrl2, Hrl, Hh2, Hheap.
    split; [reflexivity|]. split.
    + rewrite list_lookup_insert_ne by lia.
      rewrite Hlen, lookup_app_r by lia.
      rewrite Nat.sub_diag. simpl. by rewrite Hfirst.
    + exists rOld. split; [done|]. split; [done|]. split; [|by split].
      rewrite list_lookup_insert_eq; [done|]. rewrite length_app. simpl. lia.
  - go_step. go_step.
    eexists. split; [reflexivity|]. simpl. rewrite Hrm, Hrl, Hheap.
    split; [reflexivity|]. split; [|reflexivity].
    rewrite Hlen, lookup_app_r by lia.
    rewrite Nat.sub_diag. simpl. by rewrite Hfirst.
Qed.




Lemma checkByName_eq (cell : option Cell) (nm : string) (rule : RulePtr) (e : RuleEngine) :
  ruleMap e !! nm = Some rule →
  checkByName cell nm e = Check rule cell e.
Proof. intros Hmap. unfold checkByName. go_step. by rewrite Hmap. Qed.

(** A pass of [RunRules] for a cell is the marking, then [Check] on the
    rules in the order of [ruleList]. *)
Lemma RunRules_first (spec : CellSpec) (e : RuleEngine) (nm : string)
    (rest : list string) (rule : RulePtr) :
  ruleList e = nm :: rest →
  ruleMap e !! nm = Some rule →
  RunRules (Some spec) e =
    (markRules spec ≫= λ cell,
       Check rule (Some cell);; forEach rest (checkByName (Some cell))) e.
Proof.
  intros Hlist Hmap.
  set (pass := markRules spec ≫= _).
  unfold RunRules.
  erewrite bind_nil by (erewrite bind_nil by apply markRules_eq; reflexivity).
  go_step.
  unfold pass. erewrite bind_nil by apply markRules_eq.
  cbn [ruleList set_heap]. rewrite Hlist.
  cbn [forEach].
  unfold mbind, Go_bind.
  rewrite checkByName_eq with (rule := rule) by exact Hmap.
  reflexivity.
Qed.


(** *** The dependency index only grows *)

Create HintDb grows.

Lemma grows_ret {A} (a : A) : grows (mret a).
Proof. intros e a' e1 out [= _ <- _]. apply indexGrows_refl. Qed.

Lemma grows_bind {A B} (m : Go A) (k : A → Go B) :
  grows m → (∀ a, grows (k a)) → grows (m ≫= k).
Proof.
  intros Hm Hk e b e2 out. unfold mbind, Go_bind.
  destruct (m e) as [a e1 o1|] eqn:Hme; [|done].
  destruct (k a e1) as [b' e2' o2|] eqn:Hke; [|done].
  intros [= _ <- _]. eapply indexGrows_trans; [by eapply Hm | by eapply Hk].
Qed.

Lemma grows_gets {A} (f : RuleEngine → A) : grows (gets f).
Proof. intros e a e1 out [= _ <- _]. apply indexGrows_refl. Qed.

Lemma grows_emit ev : grows (emit ev).
Proof. intros e a e1 out [= _ <- _]. apply indexGrows_refl. Qed.

Lemma grows_panic {A} msg : grows (@panic A msg).
Proof. intros e a e1 out. done. Qed.

Lemma grows_modify (f : RuleEngine → RuleEngine) :
  (∀ e, cellToRuleMap (f e) = cellToRuleMap e ∧
        rulesWithoutCells (f e) = rulesWithoutCells e) →
  grows (modify f).
Proof.
  intros Hf e a e1 out [= _ <- _]. destruct (Hf e). by apply indexGrows_same.
Qed.

Lemma grows_deref rule : grows (deref rule).
Proof.
  intros e a e1 out. unfold deref. destruct (heap e !! rule); [|done].
  intros [= _ <- _]. apply indexGrows_refl.
Qed.

Lemma grows_update rule f : grows (update rule f).
Proof. apply grows_modify. intros e. done. Qed.

Lemma grows_forEach {A} (l : list A) (body : A → Go unit) :
  (∀ x, grows (body x)) → grows (forEach l body).
Proof.
  intros Hb. induction l as [|x l IH]; simpl.
  - apply grows_ret.
  - apply grows_bind; [apply Hb | intros _; exact IH].
Qed.

Lemma grows_timerAt n : grows (timerAt n).
Proof.
  intros e a e1 out. unfold timerAt. destruct (_ && _); [|done].
  intros [= _ <- _]. apply indexGrows_refl.
Qed.

Lemma grows_setTimerAt n slot : grows (setTimerAt n slot).
Proof.
  intros e a e1 out. unfold setTimerAt. destruct (_ && _); [|done].
  intros [= _ <- _]. by apply indexGrows_same.
Qed.

Lemma grows_storeRuleCell rule cell : grows (storeRuleCell rule cell).
Proof.
  intros e [] e1 out Hrun. by destruct (storeRuleCell_grows _ _ _ _ _ Hrun).
Qed.

Lemma grows_noteWithoutCells rule :
  grows (modify (λ e, set_rulesWithoutCells ({[rule]} ∪ rulesWithoutCells e) e)).
Proof.
  intros e [] e1 out [= <- _]. split; simpl; [|set_solver].
  intros c l Hl. exists []. by rewrite app_nil_r.
Qed.

#[local] Hint Resolve grows_ret grows_gets grows_emit grows_panic grows_deref
  grows_update grows_timerAt grows_setTimerAt grows_storeRuleCell
  grows_noteWithoutCells : grows.

Ltac grows_step :=
  first
    [ solve [eauto with grows]
    | solve [apply grows_modify; intros ?; split; reflexivity]
    | apply grows_forEach; intros ?
    | apply grows_bind; [|intros ?]
    | match goal with
      | |- grows (if ?b then _ else _) => destruct b
      | |- grows (match ?x with _ => _ end) => destruct x
      end ].

Ltac grows_auto := repeat grows_step.

Lemma grows_storeRuleTrackedCells rule : grows (storeRuleTrackedCells rule).
Proof. unfold storeRuleTrackedCells. grows_auto. Qed.

Lemma grows_invokeCallback propName key args :
  hostGrows → grows (invokeCallback propName key args).
Proof.
  intros Hh e b e1 out. rewrite invokeCallback_eq.
  destruct (getList propName (stash e) !! key) as [[]|];
    try (intros [= _ <- _]; apply indexGrows_refl).
  specialize (Hh f args e).
  destruct (exec f args e) as [[v|] e'];
    intros [= _ <- _]; exact Hh.
Qed.

#[local] Hint Resolve grows_storeRuleTrackedCells grows_invokeCallback : grows.

Lemma grows_invokeCond rule : hostGrows → grows (invokeCond rule).
Proof. intros Hh. unfold invokeCond, startTrackingCells. grows_auto. Qed.

Lemma grows_checkCells rule cell watch : grows (checkCells rule cell watch).
Proof.
  induction watch as [|w watch IH]; simpl; [apply grows_ret|].
  destruct (bool_decide (cell = w)); [|exact IH].
  unfold CellValue. grows_auto.
Qed.

#[local] Hint Resolve grows_invokeCond grows_checkCells : grows.

Lemma grows_Check rule cell : hostGrows → grows (Check rule cell).
Proof. intros Hh. unfold Check, IsComplete. grows_auto. Qed.

Lemma grows_Destroy rule : grows (Destroy rule).
Proof. unfold Destroy, removeCallback. grows_auto. Qed.

Lemma grows_newRule nm def : grows (newRule nm def).
Proof.
  intros e res e1 out Hrun.
  destruct (newRule_eq nm def e)
    as (res' & e1' & r & Hrun' & _ & _ & _ & _ & _ & _ & _ & _ & _ & _ & _ & Hg & _).
  rewrite Hrun' in Hrun. by injection Hrun as _ <- _.
Qed.

#[local] Hint Resolve grows_Check grows_Destroy grows_newRule : grows.

Lemma grows_esWbDefineRule args : grows (esWbDefineRule args).
Proof. unfold esWbDefineRule. grows_auto. Qed.

Lemma grows_RunRules cellSpec : hostGrows → grows (RunRules cellSpec).
Proof.
  intros Hh. unfold RunRules, markRules, checkByName, getCell, IsComplete, ShouldCheck.
  grows_auto.
Qed.

Lemma grows_timers args n :
  hostGrows →
  grows (esWbStartTimer args) ∧ grows (esWbStopTimer args) ∧ grows (fireTimer n).
Proof.
  intros Hh.
  assert (Hloop : ∀ fuel entry k, grows (slotLoop fuel entry k)).
  { induction fuel as [|fuel IH]; intros entry k; simpl; [apply grows_ret|].
    unfold slotLoopBody. grows_auto. }
  split; [|split].
  - unfold esWbStartTimer, storeCallbackAt, newTimer. grows_auto.
  - unfold esWbStopTimer, removeTimer, removeCallback. grows_auto.
  - unfold fireTimer, removeTimer, removeCallback. grows_auto.
Qed.

(** C9, as the code has it: the lists of [cellToRuleMap] are only ever
    continued and [rulesWithoutCells] only gains members -- in
    [storeRuleCell] and [storeRuleTrackedCells], through whole scheduler
    passes and rule definitions, as long as the scripts themselves only
    extend the index -- and destroying a rule is no exception: [Destroy]
    leaves [cellToRuleMap] and [rulesWithoutCells] exactly as they are, the
    entries of the destroyed rule included. *)
Theorem dependency_index_only_grows (rule : RulePtr) (r : Rule) (cell : Cell)
    (cellSpec : option CellSpec) (args : list JSValue) (e : RuleEngine) :
  hostGrows →
  heap e !! rule = Some r →
  (∃ e1, storeRuleCell rule cell e = Done tt e1 [] ∧
         indexGrows e e1 ∧ indexedUnder e1 rule [cell]) ∧
  (∃ e1 out, storeRuleTrackedCells rule e = Done tt e1 out ∧ indexGrows e e1) ∧
  (∀ e1 out, RunRules cellSpec e = Done tt e1 out → indexGrows e e1) ∧
  (∀ ret e1 out, esWbDefineRule args e = Done ret e1 out → indexGrows e e1) ∧
  (∃ e1, Destroy rule e = Done tt e1 [] ∧
         cellToRuleMap e1 = cellToRuleMap e ∧
         rulesWithoutCells e1 = rulesWithoutCells e).
Proof.
  intros Hh Hr. split; [|split; [|split; [|split]]].
  - eexists. split; [apply storeRuleCell_eq|].
    by apply (storeRuleCell_grows rule cell e _ []).
  - destruct (storeRuleTrackedCells_eq rule e r Hr) as (e1 & Hrun & _).
    eexists e1, _. split; [exact Hrun|].
    by eapply grows_storeRuleTrackedCells.
  - intros e1 out Hrun. by eapply grows_RunRules.
  - intros ret e1 out Hrun. by eapply grows_esWbDefineRule.
  - destruct (Destroy_eq rule e r Hr)
      as (e1 & Hrun & _ & _ & _ & _ & _ & _ & _ & _ & _ & _ & _ & Hc & Hw).
    by exists e1.
Qed.

(** C10: a call [Check(cell)] with a non-nil cell on a rule whose
    [shouldCheck] flag is false returns at once: no callback is invoked,
    nothing is logged, and the engine is as it was; the rule object keeps
    [firstRun], [prevCondValue], [oldCellValue] and [shouldCheck]. *)
Theorem Check_not_marked_is_noop (rule : RulePtr) (cell : Cell) (e : RuleEngine) (r : Rule) :
  heap e !! rule = Some r →
  shouldCheck r = false →
  Check rule (Some cell) e = Done tt e [] ∧
  ∀ e1 out, Check rule (Some cell) e = Done tt e1 out →
    out = [] ∧
    (firstRun <$> heap e1 !! rule) = Some (firstRun r) ∧
    (prevCondValue <$> heap e1 !! rule) = Some (prevCondValue r) ∧
    (oldCellValue <$> heap e1 !! rule) = Some (oldCellValue r) ∧
    (shouldCheck <$> heap e1 !! rule) = Some false.
Proof.
  intros Hr Hs. rewrite (Check_skips rule cell e r Hr Hs).
  split; [reflexivity|].
  intros e1 out [= <- <-]. rewrite Hr. simpl. by rewrite Hs.
Qed.

(** *** Further properties of the scheduler and of the dependency index *)

(** A level-triggered rule, when [Check] evaluates its condition, fires if
    and only if the condition returned true, whatever its latched state;
    when the body is called the rule has [firstRun] and [shouldCheck]
    cleared. *)
Theorem level_triggered_fires_iff_condition (rule : RulePtr) (cell : option Cell)
    (e e1 : RuleEngine) (r r1 : Rule) (current : bool) (out1 : list Event) :
  heap e !! rule = Some r →
  ruleType r = RULE_TYPE_LEVEL_TRIGGERED →
  cell = None ∨ shouldCheck r = true →
  invokeCond rule e = Done current e1 out1 →
  heap e1 !! rule = Some r1 →
  ∃ e2,
    heap e2 !! rule = Some (set_shouldCheck false (set_firstRun false r1)) ∧
    Check rule cell e =
      after out1 (if current
                  then (invokeCallback ruleFuncs (then_ r1) None ;; mret tt) e2
                  else Done tt e2 []).
Proof.
  intros Hr Ht Hc Hcond Hr1. eexists. split.
  2: exact (Check_level_triggered rule cell e e1 r r1 current out1 Hr Ht Hc Hcond Hr1).
  apply withRule_lookup. by eapply lookup_lt_Some.
Qed.

Lemma forEach_storeRuleCell_lookup rule (cells : list Cell) e :
  NoDup cells →
  ∃ e1, forEach cells (storeRuleCell rule) e = Done tt e1 [] ∧
        heap e1 = heap e ∧ rulesWithoutCells e1 = rulesWithoutCells e ∧
        ∀ c : Cell,
          cellToRuleMap e1 !! c =
            if bool_decide (c ∈ cells)
            then Some (default [] (cellToRuleMap e !! c) ++ [rule])
            else cellToRuleMap e !! c.
Proof.
  intros Hnd. revert e. induction Hnd as [|w cells Hw Hnd IH]; intros e; simpl.
  - exists e. repeat split; reflexivity.
  - erewrite bind_nil by apply storeRuleCell_eq.
    edestruct IH as (e1 & Hrun & Hh & Hrw & Hlook).
    exists e1. split; [exact Hrun|]. split; [exact Hh|]. split; [exact Hrw|].
    intros c. rewrite Hlook. simpl.
    destruct (decide (c = w)) as [->|Hne].
    + rewrite (bool_decide_false (w ∈ cells)) by done.
      rewrite (bool_decide_true (w ∈ w :: cells)) by (by left).
      by rewrite lookup_insert_eq.
    + rewrite lookup_insert_ne by done.
      destruct (decide (c ∈ cells)) as [Hin|Hnin].
      * by rewrite !bool_decide_true by (done || by right).
      * rewrite !bool_decide_false; [done| |done].
        intros [?|?]%elem_of_cons; done.
Qed.

(** After a condition has run, [storeRuleTrackedCells] appends the rule
    exactly once to the list of every cell the condition read and to no
    other list; a condition that read nothing puts the rule into
    [rulesWithoutCells] and leaves every list alone.  Tracking is off
    afterwards. *)
Theorem storeRuleTrackedCells_records_reads (rule : RulePtr) (e : RuleEngine) (r : Rule) :
  heap e !! rule = Some r →
  let noted : gset Cell := default ∅ (notedCells e) in
  ∃ e1 out,
    storeRuleTrackedCells rule e = Done tt e1 out ∧
    notedCells e1 = None ∧ heap e1 = heap e ∧
    (∀ c : Cell,
       cellToRuleMap e1 !! c =
         if bool_decide (c ∈ noted)
         then Some (default [] (cellToRuleMap e !! c) ++ [rule])
         else cellToRuleMap e !! c) ∧
    rulesWithoutCells e1 =
      if bool_decide (noted = ∅) then {[rule]} ∪ rulesWithoutCells e
      else rulesWithoutCells e.
Proof.
  intros Hr noted. unfold storeRuleTrackedCells. go_step. fold noted.
  destruct (decide (noted = ∅)) as [Hempty|Hne].
  - rewrite Hempty, size_empty. simpl.
    erewrite bind_out.
    2:{ go_step. erewrite bind_out by reflexivity. reflexivity. }
    simpl. eexists _, _. split; [reflexivity|]. simpl.
    split; [done|]. split; [done|]. split.
    + intros c. by rewrite bool_decide_false by set_solver.
    + by rewrite bool_decide_true.
  - assert (Hsize : (0 < size noted)%nat).
    { destruct (size noted) eqn:Hs; [|lia]. by apply size_empty_inv, leibniz_equiv in Hs. }
    rewrite (bool_decide_true (0 < size noted)%nat) by done.
    destruct (forEach_storeRuleCell_lookup rule (elements noted) e (NoDup_elements noted))
      as (e1 & Hrun & Hh & Hrw & Hlook).
    erewrite bind_nil by exact Hrun.
    eexists _, _. split; [reflexivity|]. simpl.
    split; [done|]. split; [done|]. split.
    + intros c. rewrite Hlook.
      destruct (decide (c ∈ noted)) as [Hin|Hnin].
      * rewrite !bool_decide_true; [done|done|]. by apply elem_of_elements.
      * rewrite !bool_decide_false; [done|done|]. by rewrite elem_of_elements.
    + by rewrite bool_decide_false.
Qed.

(** For a complete cell, the marking of [RunRules] sets [shouldCheck] on
    exactly the rules listed under the cell and the rules of
    [rulesWithoutCells], and touches nothing else. *)
Theorem markRules_complete_cell (spec : CellSpec) (e : RuleEngine) :
  from_option cellComplete false (model e !! (DevName_ spec, CellName_ spec)) = true →
  ∃ e1,
    markRules spec e = Done (DevName_ spec, CellName_ spec) e1 [] ∧
    sameButHeap e e1 ∧
    ∀ p : RulePtr,
      heap e1 !! p =
        if bool_decide
             (p ∈ default [] (cellToRuleMap e !! (DevName_ spec, CellName_ spec)) ∨
              p ∈ rulesWithoutCells e)
        then set_shouldCheck true <$> heap e !! p
        else heap e !! p.
Proof.
  intros Hc. eexists. split; [|split].
  - rewrite markRules_eq. rewrite Hc. reflexivity.
  - repeat split.
  - intros p. simpl. rewrite markAll_lookup.
    apply (f_equal (λ b : bool, if b then _ else _)).
    apply bool_decide_ext. rewrite elem_of_app, elem_of_elements. done.
Qed.

(** Dependency discovery, end to end: if the condition of a rule read the
    cell [c], then after [storeRuleTrackedCells], and after anything that
    only extends the index, a change notification for [c] -- once [c] is
    complete -- marks the rule for re-check. *)
Theorem read_cell_marks_rule_later (rule : RulePtr) (spec : CellSpec)
    (e e1 e2 : RuleEngine) (r2 : Rule) (noted : gset Cell) (out : list Event) :
  notedCells e = Some noted →
  (DevName_ spec, CellName_ spec) ∈ noted →
  storeRuleTrackedCells rule e = Done tt e1 out →
  indexGrows e1 e2 →
  heap e2 !! rule = Some r2 →
  from_option cellComplete false (model e2 !! (DevName_ spec, CellName_ spec)) = true →
  ∃ e3,
    markRules spec e2 = Done (DevName_ spec, CellName_ spec) e3 [] ∧
    heap e3 !! rule = Some (set_shouldCheck true r2).
Proof.
  intros Hnoted Hin Hrun [Hgrow _] Hr2 Hc.
  unfold storeRuleTrackedCells in Hrun.
  assert (Hidx : ∃ l, cellToRuleMap e1 !! (DevName_ spec, CellName_ spec) = Some l ∧ rule ∈ l).
  { revert Hrun. erewrite bind_nil by reflexivity. rewrite Hnoted. simpl.
    assert (Hsize : (0 < size noted)%nat).
    { destruct (size noted) eqn:Hs; [|lia].
      apply size_empty_inv, leibniz_equiv in Hs. set_solver. }
    rewrite bool_decide_true by done.
    destruct (forEach_storeRuleCell_lookup rule (elements noted) e (NoDup_elements noted))
      as (ea & Hrun1 & _ & _ & Hlook).
    erewrite bind_nil by exact Hrun1.
    intros [= <- _]. simpl. rewrite Hlook.
    rewrite bool_decide_true by (by apply elem_of_elements).
    eexists. split; [done|]. apply elem_of_app. right. by left. }
  destruct Hidx as (l & Hl & Hrule).
  destruct (Hgrow _ _ Hl) as [l' Hl'].
  eexists. split.
  - rewrite markRules_eq. rewrite Hc. reflexivity.
  - simpl. rewrite markAll_lookup, Hr2, Hl'. simpl.
    rewrite bool_decide_true; [done|].
    apply elem_of_app. left. apply elem_of_app. by left.
Qed.

(** *** Callback lists *)

(** Storing a callback under a new handle hands out the value of the
    counter, binds exactly that key and leaves every other key alone; the
    handle is positive as long as the counter is; removing the handle again
    gives back the list there was, provided the key was free. *)
Theorem storeCallback_new_handle (propName : CallbackList) (callback : JSValue)
    (e : RuleEngine) :
  ∃ e1,
    storeCallbackNew propName callback e = Done (callbackIndex e) e1 [] ∧
    callbackIndex e1 = (callbackIndex e + 1) `mod` esCallback_modulus ∧
    getList propName (stash e1) !! callbackIndex e = Some callback ∧
    (∀ key, key ≠ callbackIndex e →
       getList propName (stash e1) !! key = getList propName (stash e) !! key) ∧
    (∀ other, other ≠ propName →
       getList other (stash e1) = getList other (stash e)) ∧
    (getList propName (stash e) !! callbackIndex e = None →
     ∃ e2, removeCallback propName (callbackIndex e) e1 = Done tt e2 [] ∧
           getList propName (stash e2) = getList propName (stash e)).
Proof.
  eexists. split; [reflexivity|]. simpl.
  split; [reflexivity|].
  split; [destruct propName; simpl; apply lookup_insert_eq|].
  split; [intros key Hne; destruct propName; simpl; by rewrite lookup_insert_ne|].
  split; [intros other Hne; by destruct propName, other|].
  intros Hfree. eexists. split; [reflexivity|].
  destruct propName; simpl in *; by rewrite delete_insert_id.
Qed.

(** *** Timers *)

Lemma timerAt_eq (n : Z) (e : RuleEngine) :
  1 ≤ n ≤ Z.of_nat (length (timers e)) →
  timerAt n e = Done (mjoin (timers e !! Z.to_nat (n - 1))) e [].
Proof.
  intros Hn. unfold timerAt.
  replace ((0 <=? n - 1) && (n - 1 <? Z.of_nat (length (timers e)))) with true;
    [reflexivity|].
  symmetry. apply andb_true_iff. split; [apply Z.leb_le | apply Z.ltb_lt]; lia.
Qed.

Lemma setTimerAt_eq (n : Z) (slot : option TimerEntry) (e : RuleEngine) :
  1 ≤ n ≤ Z.of_nat (length (timers e)) →
  setTimerAt n slot e =
    Done tt (set_timers (<[Z.to_nat (n - 1) := slot]> (timers e)) e) [].
Proof.
  intros Hn. unfold setTimerAt.
  replace ((0 <=? n - 1) && (n - 1 <? Z.of_nat (length (timers e)))) with true;
    [reflexivity|].
  symmetry. apply andb_true_iff. split; [apply Z.leb_le | apply Z.ltb_lt]; lia.
Qed.

Lemma removeTimer_eq (n : Z) (e : RuleEngine) :
  1 ≤ n ≤ Z.of_nat (length (timers e)) →
  removeTimer n e =
    Done tt
      (set_timers (<[Z.to_nat (n - 1) := None]> (timers e))
         (set_stash (setList ruleEngineTimers
                       (delete n (getList ruleEngineTimers (stash e))) (stash e)) e)) [].
Proof.
  intros Hn. unfold removeTimer, removeCallback. go_step.
  by rewrite setTimerAt_eq.
Qed.

(** Stopping a timer that is in the table frees its slot and deletes its
    callback, and nothing else; a tick of that timer that arrives later,
    and a second [stopTimer], are logged and change nothing. *)
Theorem esWbStopTimer_running_timer (n : Z) (e : RuleEngine) (entry : TimerEntry) :
  1 ≤ n ≤ Z.of_nat (length (timers e)) →
  timers e !! Z.to_nat (n - 1) = Some (Some entry) →
  let e1 :=
    set_timers (<[Z.to_nat (n - 1) := None]> (timers e))
      (set_stash (setList ruleEngineTimers
                    (delete n (getList ruleEngineTimers (stash e))) (stash e)) e) in
  esWbStopTimer [JSNum n] e = Done Ret0 e1 [] ∧
  fireTimer n e1 = Done tt e1 [EvFireUnknownTimer n] ∧
  esWbStopTimer [JSNum n] e1 = Done Ret0 e1 [EvStopUnknownTimer n].
Proof.
  intros Hn Hslot e1.
  assert (Hn1 : 1 ≤ n ≤ Z.of_nat (length (timers e1)))
    by (unfold e1; simpl; rewrite length_insert; done).
  assert (Hslot1 : timers e1 !! Z.to_nat (n - 1) = Some None).
  { unfold e1. simpl. apply list_lookup_insert_eq. lia. }
  assert (Hz : (n =? 0) = false) by (apply Z.eqb_neq; lia).
  split; [|split].
  - unfold esWbStopTimer. rewrite Hz.
    erewrite bind_nil by (by apply timerAt_eq). rewrite Hslot. simpl.
    erewrite bind_nil by (by apply removeTimer_eq). reflexivity.
  - unfold fireTimer. erewrite bind_nil by (by apply timerAt_eq).
    rewrite Hslot1. reflexivity.
  - unfold esWbStopTimer. rewrite Hz.
    erewrite bind_nil by (by apply timerAt_eq). rewrite Hslot1. reflexivity.
Qed.

(** A tick of a timer in the table calls its callback once; a periodic
    timer stays as the callback left it, a one-shot timer then loses its
    slot and its callback.  Whether it is one-shot is read off the entry
    found before the call. *)
Theorem fireTimer_in_table (n : Z) (e e1 : RuleEngine) (entry : TimerEntry)
    (b : bool) (out : list Event) :
  1 ≤ n ≤ Z.of_nat (length (timers e)) →
  timers e !! Z.to_nat (n - 1) = Some (Some entry) →
  invokeCallback ruleEngineTimers n None e = Done b e1 out →
  1 ≤ n ≤ Z.of_nat (length (timers e1)) →
  ∃ e2,
    fireTimer n e = Done tt e2 out ∧
    (∃ rest, out = EvCall ruleEngineTimers n None :: rest) ∧
    if periodic entry then e2 = e1
    else timers e2 = <[Z.to_nat (n - 1) := None]> (timers e1) ∧
         getList ruleEngineTimers (stash e2) !! n = None ∧
         (∀ k, k ≠ n → getList ruleEngineTimers (stash e2) !! k =
                       getList ruleEngineTimers (stash e1) !! k).
Proof.
  intros Hn Hslot Hcall Hn1.
  assert (Hout : ∃ rest, out = EvCall ruleEngineTimers n None :: rest).
  { destruct (invokeCallback_calls ruleEngineTimers n None e) as (b' & e' & rest & Hc).
    rewrite Hc in Hcall. injection Hcall as _ _ <-. by eexists. }
  unfold fireTimer. erewrite bind_nil by (by apply timerAt_eq).
  rewrite Hslot. simpl. erewrite bind_out by exact Hcall.
  destruct (periodic entry).
  - exists e1. simpl. rewrite app_nil_r. done.
  - rewrite removeTimer_eq by done. simpl. rewrite app_nil_r.
    eexists. split; [reflexivity|]. split; [exact Hout|]. simpl.
    split; [done|]. split; [apply lookup_delete_eq|].
    intros k Hk. by rewrite lookup_delete_ne.
Qed.

(** On a table whose first slot is not taken, [startTimer] with a
    periodic timer whose duration is not positive panics in [newTimer];
    with any other timer -- a one-shot timer, or a periodic one of a
    positive duration -- it puts the new entry into slot 1, appending it
    to an empty table, binds the callback to key 1 and returns 1. *)
Theorem esWbStartTimer_first_slot_free (f : nat) (ms : Z) (p : JSValue) (e : RuleEngine) :
  timers e = [] ∨ (∃ rest, timers e = None :: rest) →
  (ToBoolean p && (toDuration ms <=? 0) = true →
   esWbStartTimer [JSFunc f; JSNum ms; p] e =
     Panic "non-positive interval for NewTicker") ∧
  (ToBoolean p && (toDuration ms <=? 0) = false →
   ∃ e1,
     esWbStartTimer [JSFunc f; JSNum ms; p] e = Done (Ret1 (JSNum 1)) e1 [] ∧
     timers e1 = Some (mkTimerEntry (ToBoolean p) ms) :: tail (timers e) ∧
     getList ruleEngineTimers (stash e1) !! 1 = Some (JSFunc f) ∧
     (∀ k, k ≠ 1 → getList ruleEngineTimers (stash e1) !! k =
                   getList ruleEngineTimers (stash e) !! k)).
Proof.
  intros Hfree.
  assert (Hrun : ∃ e1,
    esWbStartTimer [JSFunc f; JSNum ms; p] e =
      (newTimer 1 (toDuration ms) (ToBoolean p);; mret (Ret1 (JSNum 1))) e1 ∧
    timers e1 = Some (mkTimerEntry (ToBoolean p) ms) :: tail (timers e) ∧
    getList ruleEngineTimers (stash e1) !! 1 = Some (JSFunc f) ∧
    (∀ k, k ≠ 1 → getList ruleEngineTimers (stash e1) !! k =
                  getList ruleEngineTimers (stash e) !! k)).
  { unfold esWbStartTimer. go_step.
    erewrite bind_nil by apply slotLoop_eq.
    destruct Hfree as [Ht | [rest Ht]]; rewrite Ht.
    - go_step. rewrite Ht. simpl. go_step.
      unfold storeCallbackAt. go_step.
      eexists. split; [reflexivity|]. simpl. rewrite Ht. simpl.
      split; [done|]. split; [apply lookup_insert_eq|].
      intros k Hk. by rewrite lookup_insert_ne.
    - go_step. simpl.
      match goal with
      | |- context [?a <? 1] =>
          replace (a <? 1) with false by (symmetry; apply Z.ltb_ge; simpl; lia)
      end.
      go_step. unfold storeCallbackAt. go_step.
      eexists. split; [reflexivity|]. simpl.
      split; [done|]. split; [apply lookup_insert_eq|].
      intros k Hk. by rewrite lookup_insert_ne. }
  destruct Hrun as (e1 & Hrun & Htimers & Hkey & Hkeys).
  split; intros Hd.
  - rewrite Hrun. unfold mbind, Go_bind. by rewrite newTimer_eq, Hd.
  - exists e1. split; [|done].
    rewrite Hrun. unfold mbind, Go_bind. by rewrite newTimer_eq, Hd.
Qed.

(** A one-shot timer cannot be re-armed from its own callback: when the
    callback of the timer in slot 1 does nothing but start a new timer,
    the new timer gets the id 1 too, its entry goes into no slot, and the
    end of the tick deletes its callback together with the slot; the tick
    of the new timer then finds nothing to call. *)
Theorem one_shot_timer_rearm_is_lost (e e1 : RuleEngine) (old : TimerEntry)
    (rest : list (option TimerEntry)) (f g : nat) (ms : Z) (p v : JSValue) :
  timers e = Some old :: rest →
  periodic old = false →
  getList ruleEngineTimers (stash e) !! 1 = Some (JSFunc f) →
  esWbStartTimer [JSFunc g; JSNum ms; p] e = Done (Ret1 (JSNum 1)) e1 [] →
  exec f None e = (Some v, e1) →
  ∃ e2,
    fireTimer 1 e = Done tt e2 [EvCall ruleEngineTimers 1 None] ∧
    timers e2 = None :: rest ∧
    getList ruleEngineTimers (stash e2) !! 1 = None ∧
    fireTimer 1 e2 = Done tt e2 [EvFireUnknownTimer 1].
Proof.
  intros Ht Hp Hf Hstart Hexec.
  assert (Ht1 : timers e1 = Some old :: rest).
  { revert Hstart. unfold esWbStartTimer. go_step.
    erewrite bind_nil by apply slotLoop_eq. rewrite Ht.
    go_step. rewrite Ht.
    match goal with
    | |- context [?a <? 1] =>
        replace (a <? 1) with false by (symmetry; apply Z.ltb_ge; simpl; lia)
    end.
    go_step. unfold storeCallbackAt. go_step.
    unfold mbind, Go_bind. rewrite newTimer_eq.
    destruct (_ && _); [done|].
    intros [= <-]. simpl. exact Ht. }
  assert (Hn : 1 ≤ 1 ≤ Z.of_nat (length (timers e)))
    by (rewrite Ht; simpl; lia).
  assert (Hn1 : 1 ≤ 1 ≤ Z.of_nat (length (timers e1)))
    by (rewrite Ht1; simpl; lia).
  assert (Hcall : invokeCallback ruleEngineTimers 1 None e =
                  Done (ToBoolean v) e1 [EvCall ruleEngineTimers 1 None]).
  { rewrite invokeCallback_eq, Hf, Hexec. reflexivity. }
  unfold fireTimer. erewrite bind_nil by (by apply timerAt_eq).
  rewrite Ht. simpl. erewrite bind_out by exact Hcall. rewrite Hp.
  rewrite removeTimer_eq by done. simpl. rewrite Ht1. simpl.
  eexists. split; [reflexivity|]. simpl.
  split; [done|]. split; [apply lookup_delete_eq|].
  reflexivity.
Qed.

(** *** Rule definitions *)

Lemma storeWatchCells_verdict (rule : RulePtr) (cellNames : list string) (e : RuleEngine) :
  ∀ res e1 out,
    storeWatchCells rule cellNames e = Done res e1 out →
    match res with
    | inl _ => forallb (λ s, bool_decide (is_Some (splitSlash s))) cellNames = true
    | inr _ => forallb (λ s, bool_decide (is_Some (splitSlash s))) cellNames = false
    end.
Proof.
  revert e. induction cellNames as [|fullName rest IH]; intros e res e1 out; simpl.
  - by intros [= <- _ _].
  - destruct (splitSlash fullName) as [[devName cellName]|]; simpl.
    + unfold getCell. go_step. go_step. go_step. apply IH.
    + by intros [= <- _ _].
Qed.

Ltac newRule_reject :=
  intros res e1 out Hrun; injection Hrun as <- <- <-; by eexists.

Ltac newRule_accept :=
  intros res e1 out Hrun; injection Hrun as <- <- <-; simpl;
  split; [reflexivity|];
  rewrite lookup_app_r by lia; by rewrite Nat.sub_diag.

Lemma newRule_verdict (nm : string) (def : JSValue) (e : RuleEngine) :
  ∀ res e1 out,
    newRule nm def e = Done res e1 out →
    match triggerOf def with
    | Some t =>
        res = inl (length (heap e)) ∧
        (ruleType <$> heap e1 !! length (heap e)) = Some t
    | None => ∃ err, res = inr err
    end.
Proof.
  unfold newRule, triggerOf, watchNames. go_step. go_step.
  destruct (HasPropString def "then"); simpl; [|newRule_reject].
  erewrite bind_nil by reflexivity.
  erewrite bind_nil by (apply update_last; reflexivity).
  destruct (HasPropString def "when"); simpl.
  { destruct (HasPropString def "asSoonAs"); simpl; [newRule_reject|].
    destruct (HasPropString def "onCellChange"); simpl; [newRule_reject|].
    erewrite bind_nil by reflexivity.
    erewrite bind_nil by (apply update_last; reflexivity).
    erewrite bind_nil by (apply update_last; reflexivity).
    newRule_accept. }
  destruct (HasPropString def "asSoonAs"); simpl.
  { destruct (HasPropString def "onCellChange"); [newRule_reject|].
    erewrite bind_nil by reflexivity.
    erewrite bind_nil by (apply update_last; reflexivity).
    erewrite bind_nil by (apply update_last; reflexivity).
    newRule_accept. }
  destruct (HasPropString def "onCellChange"); simpl; [|newRule_reject].
  set (names := match GetPropString def "onCellChange" with
                | JSStr s => [s]
                | _ => StringArrayToGo (GetPropString def "onCellChange")
                end).
  destruct (IsString (GetPropString def "onCellChange")) eqn:Hstr; simpl.
  - erewrite bind_nil by (apply update_last; reflexivity).
    match goal with
    | |- context [set_heap (heap e ++ [?r]) ?e0] =>
        destruct (storeWatchCells_eq names (heap e) r (set_heap (heap e ++ [r]) e0) eq_refl)
          as (res' & e1' & cells & Hrun' & Hheap & _)
    end.
    pose proof (storeWatchCells_verdict _ _ _ _ _ _ Hrun') as Hv.
    erewrite bind_nil by exact Hrun'.
    destruct res' as [[]|err]; rewrite Hv.
    + intros res e1 out [= <- <- <-]. split; [reflexivity|].
      rewrite Hheap, lookup_app_r by lia. by rewrite Nat.sub_diag.
    + newRule_reject.
  - destruct (bool_decide (length names = 0%nat)) eqn:Hlen; simpl;
      [newRule_reject|].
    erewrite bind_nil by (apply update_last; reflexivity).
    match goal with
    | |- context [set_heap (heap e ++ [?r]) ?e0] =>
        destruct (storeWatchCells_eq names (heap e) r (set_heap (heap e ++ [r]) e0) eq_refl)
          as (res' & e1' & cells & Hrun' & Hheap & _)
    end.
    pose proof (storeWatchCells_verdict _ _ _ _ _ _ Hrun') as Hv.
    erewrite bind_nil by exact Hrun'.
    destruct res' as [[]|err]; rewrite Hv.
    + intros res e1 out [= <- <- <-]. split; [reflexivity|].
      rewrite Hheap, lookup_app_r by lia. by rewrite Nat.sub_diag.
    + newRule_reject.
Qed.

(** [newRule] accepts a definition exactly when it has [then] and one
    single trigger among [when], [asSoonAs] and [onCellChange] (with
    well-formed cell names), and the rule it builds has the type of that
    trigger; every other definition -- no [then], two triggers, no trigger
    at all, as with only [whenChanged] or a cron entry -- is an error. *)
Theorem newRule_accepts_one_trigger (nm : string) (def : JSValue) (e : RuleEngine) :
  ∃ res e1,
    newRule nm def e = Done res e1 [] ∧
    match triggerOf def with
    | Some t =>
        res = inl (length (heap e)) ∧
        (ruleType <$> heap e1 !! length (heap e)) = Some t
    | None => ∃ err, res = inr err
    end.
Proof.
  destruct (newRule_eq nm def e) as (res & e1 & r & Hrun & _).
  exists res, e1. split; [exact Hrun|].
  by eapply newRule_verdict.
Qed.

(** *** The registry *)

Lemma keepsRegistry_refl e : keepsRegistry e e.
Proof. split; [done|auto]. Qed.

Lemma keepsRegistry_trans e1 e2 e3 :
  keepsRegistry e1 e2 → keepsRegistry e2 e3 → keepsRegistry e1 e3.
Proof. intros [H1 D1] [H2 D2]. split; [lia|auto]. Qed.

Lemma wfRegistry_live e nm (p : RulePtr) :
  wfRegistry e → ruleMap e !! nm = Some p → (p < length (heap e))%nat.
Proof.
  intros (_ & _ & Hlive & _) Hp. destruct (Hlive nm p Hp) as (r & Hr & _).
  by eapply lookup_lt_Some.
Qed.

(** Changing fields other than [ruleType] of a rule object, or adding an
    object to the heap, leaves the registry well formed. *)
Lemma wfRegistry_alter (f : Rule → Rule) (p : RulePtr) e :
  (∀ r, ruleType (f r) = ruleType r) →
  wfRegistry e → wfRegistry (set_heap (alter f p (heap e)) e).
Proof.
  intros Hf (Hnd & Hdom & Hlive & Hinj). repeat split; try done; try apply Hdom.
  intros nm q Hq. simpl in *. destruct (Hlive nm q Hq) as (r & Hr & Ht).
  destruct (decide (q = p)) as [->|Hne].
  - exists (f r). rewrite list_lookup_alter_eq, Hr. split; [done|]. by rewrite Hf.
  - exists r. by rewrite list_lookup_alter_ne.
Qed.

Lemma wfRegistry_markAll rules e :
  wfRegistry e → wfRegistry (set_heap (markAll rules (heap e)) e).
Proof.
  revert e. induction rules as [|q rules IH]; intros e Hwf.
  - by destruct e.
  - exact (IH (set_heap (alter (set_shouldCheck true) q (heap e)) e)
              (wfRegistry_alter (set_shouldCheck true) q e (λ _, eq_refl) Hwf)).
Qed.

Lemma wfRegistry_new_object (r : Rule) e e1 :
  heap e1 = heap e ++ [r] → ruleMap e1 = ruleMap e → ruleList e1 = ruleList e →
  wfRegistry e → wfRegistry e1.
Proof.
  intros Hh Hm Hl (Hnd & Hdom & Hlive & Hinj). unfold wfRegistry.
  rewrite Hh, Hm, Hl. repeat split; try done; try apply Hdom.
  intros nm q Hq. destruct (Hlive nm q Hq) as (rq & Hrq & Ht).
  exists rq. split; [|done]. rewrite lookup_app_l; [done|]. by eapply lookup_lt_Some.
Qed.

(** A definition that [newRule] does not accept is logged and answered
    with [DUK_RET_ERROR]; the registry, the order of the rules and every
    existing rule object -- a rule already defined under that name
    included -- stay as they are. *)
Theorem esWbDefineRule_rejected_keeps_rules (args : list JSValue) (e : RuleEngine) :
  (∀ nm def, args = [JSStr nm; def] → triggerOf def = None) →
  ∃ e1 ev,
    esWbDefineRule args e = Done DUK_RET_ERROR e1 [ev] ∧
    ruleMap e1 = ruleMap e ∧ ruleList e1 = ruleList e ∧
    timers e1 = timers e ∧ model e1 = model e ∧
    ∀ (p : RulePtr) r, heap e !! p = Some r → heap e1 !! p = Some r.
Proof.
  intros Hbad.
  assert (Hsame : ∃ e1 ev, Done DUK_RET_ERROR e [EvBadRuleDefinition] =
                           Done DUK_RET_ERROR e1 [ev] ∧
                    ruleMap e1 = ruleMap e ∧ ruleList e1 = ruleList e ∧
                    timers e1 = timers e ∧ model e1 = model e ∧
                    ∀ (p : RulePtr) r, heap e !! p = Some r → heap e1 !! p = Some r)
    by (eexists _, _; repeat split; done).
  destruct args as [|a [|def [|c args]]]; try exact Hsame;
    destruct a; try exact Hsame.
  specialize (Hbad s def eq_refl).
  unfold esWbDefineRule.
  destruct (IsObject def); simpl; [|exact Hsame].
  destruct (newRule_eq s def e)
    as (res & e1 & r & Hrun & Hheap & _ & _ & _ & _ & _ & Hm & Ht & Hrm & Hrl & _).
  pose proof (newRule_verdict s def e _ _ _ Hrun) as Hv. rewrite Hbad in Hv.
  destruct Hv as [err ->].
  erewrite bind_nil by exact Hrun. simpl.
  eexists _, _. split; [reflexivity|].
  repeat split; try done.
  intros p r0 Hp. rewrite Hheap, lookup_app_l; [done|]. by eapply lookup_lt_Some.
Qed.

Lemma esWbDefineRule_wf (args : list JSValue) (e : RuleEngine) :
  wfRegistry e →
  ∃ ret e1 out,
    esWbDefineRule args e = Done ret e1 out ∧
    wfRegistry e1 ∧ keepsRegistry e e1.
Proof.
  intros Hwf.
  assert (Hsame : ∃ ret e1 out, Done DUK_RET_ERROR e [EvBadRuleDefinition] =
                                Done ret e1 out ∧ wfRegistry e1 ∧ keepsRegistry e e1)
    by (eexists _, _, _; split; [reflexivity|]; split;
        [done | apply keepsRegistry_refl]).
  destruct args as [|a [|def [|c args]]]; try exact Hsame;
    destruct a; try exact Hsame.
  rename s into nm. unfold esWbDefineRule.
  destruct (IsObject def); simpl; [|exact Hsame].
  destruct (newRule_eq nm def e)
    as (res & e1 & r & Hrun & Hheap & _ & _ & _ & _ & _ & _ & _ & Hrm & Hrl & _ & _ & Hres).
  assert (Hwf1 : wfRegistry e1) by (by eapply wfRegistry_new_object).
  assert (Hk1 : keepsRegistry e e1).
  { split; [rewrite Hheap, length_app; lia | by rewrite Hrm]. }
  erewrite bind_nil by exact Hrun.
  destruct res as [p|err]; simpl.
  2:{ eexists _, _, _. split; [reflexivity|]. by split. }
  destruct (Hres p eq_refl) as (-> & _ & Htype).
  assert (Hr_type : ruleType r ≠ RULE_TYPE_NONE)
    by (destruct Htype as [-> | [-> | ->]]; done).
  destruct Hwf as (Hnd & Hdom & Hlive & Hinj).
  go_step. rewrite Hrm.
  destruct (ruleMap e !! nm) as [old|] eqn:Hold.
  - destruct (Hlive nm old Hold) as (rOld & HrOld & _).
    assert (Hlt : (old < length (heap e))%nat) by (by eapply lookup_lt_Some).
    assert (HrOld1 : heap e1 !! old = Some rOld) by (by rewrite Hheap, lookup_app_l).
    destruct (Destroy_eq old e1 rOld HrOld1)
      as (e2 & Hd & Hh2 & _ & _ & _ & _ & _ & _ & _ & Hrm2 & Hrl2 & _).
    erewrite bind_nil by exact Hd. go_step.
    eexists _, _, _. split; [reflexivity|]. split.
    + unfold wfRegistry. simpl. rewrite Hrl2, Hrl, Hrm2, Hrm, Hh2, Hheap.
      split; [done|]. split; [|split].
      * intros nm'. rewrite Hdom. destruct (decide (nm' = nm)) as [->|Hne].
        -- rewrite lookup_insert_eq, Hold. split; eauto.
        -- by rewrite lookup_insert_ne.
      * intros nm' q Hq. destruct (decide (nm' = nm)) as [->|Hne].
        -- rewrite lookup_insert_eq in Hq. injection Hq as <-.
           exists r. split; [|done].
           rewrite list_lookup_insert_ne by lia.
           rewrite lookup_app_r by lia. by rewrite Nat.sub_diag.
        -- rewrite lookup_insert_ne in Hq by done.
           destruct (Hlive nm' q Hq) as (rq & Hrq & Htq).
           exists rq. split; [|done].
           assert (q ≠ old) by (intros ->; apply Hne; by eapply Hinj).
           rewrite list_lookup_insert_ne by done.
           rewrite lookup_app_l; [done|]. by eapply lookup_lt_Some.
      * intros nm1 nm2 q H1 H2.
        destruct (decide (nm1 = nm)) as [->|Hne1];
          destruct (decide (nm2 = nm)) as [->|Hne2]; [done| | |].
        -- rewrite lookup_insert_eq in H1. rewrite lookup_insert_ne in H2 by done.
           injection H1 as <-.
           destruct (Hlive nm2 _ H2) as (rq & Hrq%lookup_lt_Some & _). lia.
        -- rewrite lookup_insert_eq in H2. rewrite lookup_insert_ne in H1 by done.
           injection H2 as <-.
           destruct (Hlive nm1 _ H1) as (rq & Hrq%lookup_lt_Some & _). lia.
        -- rewrite lookup_insert_ne in H1, H2 by done. by eapply Hinj.
    + split; simpl.
      * rewrite Hh2, length_insert, Hheap, length_app. lia.
      * intros nm' Hs. rewrite Hrm2, Hrm.
        destruct (decide (nm' = nm)) as [->|Hne];
          [by rewrite lookup_insert_eq | by rewrite lookup_insert_ne].
  - go_step. go_step.
    assert (Hnew : nm ∉ ruleList e).
    { rewrite Hdom, Hold. by intros [? ?]. }
    eexists _, _, _. split; [reflexivity|]. split.
    + unfold wfRegistry. simpl. rewrite Hrl, Hrm, Hheap.
      split; [|split; [|split]].
      * apply NoDup_app. split; [done|]. split; [|apply NoDup_singleton].
        intros x Hx ->%list_elem_of_singleton. done.
      * intros nm'. rewrite elem_of_app, list_elem_of_singleton, Hdom.
        destruct (decide (nm' = nm)) as [->|Hne].
        -- rewrite lookup_insert_eq. split; eauto.
        -- rewrite lookup_insert_ne by done. split; [intros [?|?]; done | auto].
      * intros nm' q Hq. destruct (decide (nm' = nm)) as [->|Hne].
        -- rewrite lookup_insert_eq in Hq. injection Hq as <-.
           exists r. split; [|done].
           rewrite lookup_app_r by lia. by rewrite Nat.sub_diag.
        -- rewrite lookup_insert_ne in Hq by done.
           destruct (Hlive nm' q Hq) as (rq & Hrq & Htq).
           exists rq. split; [|done].
           rewrite lookup_app_l; [done|]. by eapply lookup_lt_Some.
      * intros nm1 nm2 q H1 H2.
        destruct (decide (nm1 = nm)) as [->|Hne1];
          destruct (decide (nm2 = nm)) as [->|Hne2]; [done| | |].
        -- rewrite lookup_insert_eq in H1. rewrite lookup_insert_ne in H2 by done.
           injection H1 as <-.
           destruct (Hlive nm2 _ H2) as (rq & Hrq%lookup_lt_Some & _). lia.
        -- rewrite lookup_insert_eq in H2. rewrite lookup_insert_ne in H1 by done.
           injection H2 as <-.
           destruct (Hlive nm1 _ H1) as (rq & Hrq%lookup_lt_Some & _). lia.
        -- rewrite lookup_insert_ne in H1, H2 by done. by eapply Hinj.
    + split; simpl.
      * rewrite Hheap, length_app. lia.
      * intros nm' Hs. rewrite Hrm.
        destruct (decide (nm' = nm)) as [->|Hne];
          [by rewrite lookup_insert_eq | by rewrite lookup_insert_ne].
Qed.

(** On a well-formed registry [defineRule] returns, whatever it is called
    with, and leaves the registry well formed: the names of [ruleList] are
    the registered ones, each once, and each points to its own rule object,
    which is not destroyed.  Nothing registered is lost.  The registry of a
    new engine is well formed. *)
Theorem esWbDefineRule_keeps_registry (args : list JSValue) (e : RuleEngine) :
  wfRegistry e →
  (∀ model, wfRegistry (NewRuleEngine model)) ∧
  ∃ ret e1 out,
    esWbDefineRule args e = Done ret e1 out ∧
    wfRegistry e1 ∧ keepsRegistry e e1.
Proof.
  intros Hwf. split; [|by apply esWbDefineRule_wf].
  intros m. unfold wfRegistry. simpl. split; [constructor|]. split; [|split].
  - intros nm. rewrite lookup_empty. split; [by intros ?%not_elem_of_nil | by intros [? ?]].
  - intros nm p Hp. by rewrite lookup_empty in Hp.
  - intros nm1 nm2 p Hp. by rewrite lookup_empty in Hp.
Qed.

(** *** A pass does not panic *)

Lemma wfRegistry_frame (f : RuleEngine → RuleEngine) e :
  heap (f e) = heap e → ruleMap (f e) = ruleMap e → ruleList (f e) = ruleList e →
  wfRegistry e → wfRegistry (f e).
Proof. intros Hh Hm Hl. unfold wfRegistry. by rewrite Hh, Hm, Hl. Qed.

Lemma safe_ret {A} rule (a : A) : safe rule (mret a).
Proof.
  intros e Hwf Hlt. eexists _, _, _. split; [reflexivity|].
  split; [done | apply keepsRegistry_refl].
Qed.

Lemma safe_bind {A B} rule (m : Go A) (k : A → Go B) :
  safe rule m → (∀ a, safe rule (k a)) → safe rule (m ≫= k).
Proof.
  intros Hm Hk e Hwf Hlt.
  destruct (Hm e Hwf Hlt) as (a & e1 & o1 & Hrun & Hwf1 & Hk1).
  assert (Hlt1 : (rule < length (heap e1))%nat) by (destruct Hk1; lia).
  destruct (Hk a e1 Hwf1 Hlt1) as (b & e2 & o2 & Hrun2 & Hwf2 & Hk2).
  exists b, e2, (o1 ++ o2). split.
  - unfold mbind, Go_bind. by rewrite Hrun, Hrun2.
  - split; [done | by eapply keepsRegistry_trans].
Qed.

Lemma safe_gets {A} rule (f : RuleEngine → A) : safe rule (gets f).
Proof.
  intros e Hwf Hlt. eexists _, _, _. split; [reflexivity|].
  split; [done | apply keepsRegistry_refl].
Qed.

Lemma safe_emit rule ev : safe rule (emit ev).
Proof.
  intros e Hwf Hlt. eexists _, _, _. split; [reflexivity|].
  split; [done | apply keepsRegistry_refl].
Qed.

Lemma safe_frame rule (f : RuleEngine → RuleEngine) :
  (∀ e, heap (f e) = heap e ∧ ruleMap (f e) = ruleMap e ∧ ruleList (f e) = ruleList e) →
  safe rule (modify f).
Proof.
  intros Hf e Hwf Hlt. destruct (Hf e) as (Hh & Hm & Hl).
  eexists _, _, _. split; [reflexivity|]. split.
  - by apply wfRegistry_frame.
  - split; [by rewrite Hh | by rewrite Hm].
Qed.

Lemma safe_deref rule : safe rule (deref rule).
Proof.
  intros e Hwf Hlt. destruct (lookup_lt_is_Some_2 (heap e) rule Hlt) as [r Hr].
  exists r, e, []. split; [by apply deref_Some|].
  split; [done | apply keepsRegistry_refl].
Qed.

Lemma safe_update rule (p : RulePtr) (f : Rule → Rule) :
  (∀ r, ruleType (f r) = ruleType r) → safe rule (update p f).
Proof.
  intros Hf e Hwf Hlt. eexists _, _, _. split; [reflexivity|]. split.
  - by apply wfRegistry_alter.
  - split; simpl; [by rewrite length_alter | auto].
Qed.

Lemma safe_forEach {A} rule (l : list A) (body : A → Go unit) :
  (∀ x, safe rule (body x)) → safe rule (forEach l body).
Proof.
  intros Hb. induction l as [|x l IH]; simpl.
  - apply safe_ret.
  - apply safe_bind; [apply Hb | intros _; exact IH].
Qed.

Lemma safe_invokeCallback rule propName key args :
  hostKeepsRegistry → safe rule (invokeCallback propName key args).
Proof.
  intros Hh e Hwf Hlt. rewrite invokeCallback_eq.
  destruct (getList propName (stash e) !! key) as [[]|];
    try (eexists _, _, _; split; [reflexivity|];
         split; [done | apply keepsRegistry_refl]).
  destruct (Hh f args e Hwf) as [Hwf1 Hk1].
  destruct (exec f args e) as [[v|] e1];
    eexists _, _, _; (split; [reflexivity|]); by split.
Qed.

Create HintDb safe.

#[local] Hint Resolve safe_ret safe_gets safe_emit safe_deref safe_invokeCallback : safe.

Ltac safe_step :=
  first
    [ solve [eauto with safe]
    | solve [apply safe_update; intros ?; reflexivity]
    | solve [apply safe_frame; intros ?; repeat split; reflexivity]
    | apply safe_forEach; intros ?
    | apply safe_bind; [|intros ?]
    | match goal with
      | |- safe _ (if ?b then _ else _) => destruct b
      | |- safe _ (match ?x with _ => _ end) => destruct x
      end ].

Ltac safe_auto := repeat safe_step.

Lemma safe_storeRuleTrackedCells rule : safe rule (storeRuleTrackedCells rule).
Proof. unfold storeRuleTrackedCells. safe_auto. Qed.

#[local] Hint Resolve safe_storeRuleTrackedCells : safe.

Lemma safe_invokeCond rule : hostKeepsRegistry → safe rule (invokeCond rule).
Proof. intros Hh. unfold invokeCond, startTrackingCells. safe_auto. Qed.

Lemma safe_checkCells rule cell watch : safe rule (checkCells rule cell watch).
Proof.
  induction watch as [|w watch IH]; simpl; [apply safe_ret|].
  destruct (bool_decide (cell = w)); [|exact IH].
  unfold CellValue. safe_auto.
Qed.

#[local] Hint Resolve safe_invokeCond safe_checkCells : safe.

(** [Check] on a rule object that is not destroyed returns. *)
Lemma Check_returns (rule : RulePtr) (cell : option Cell) (e : RuleEngine) (r : Rule) :
  hostKeepsRegistry →
  wfRegistry e →
  heap e !! rule = Some r →
  ruleType r ≠ RULE_TYPE_NONE →
  ∃ e1 out, Check rule cell e = Done tt e1 out ∧ wfRegistry e1 ∧ keepsRegistry e e1.
Proof.
  intros Hh Hwf Hr Ht.
  assert (Hlt : (rule < length (heap e))%nat) by (by eapply lookup_lt_Some).
  unfold Check. go_step.
  destruct (bool_decide (cell ≠ None) && negb (shouldCheck r)).
  { exists e, []. split; [reflexivity|]. split; [done | apply keepsRegistry_refl]. }
  replace (ruleType r =? RULE_TYPE_NONE) with false
    by (symmetry; by apply Z.eqb_neq).
  match goal with
  | |- ∃ e1 out, ?m e = _ ∧ _ =>
      assert (Hsafe : safe rule m) by (unfold IsComplete; safe_auto)
  end.
  destruct (Hsafe e Hwf Hlt) as ([] & e1 & out & Hrun & Hwf1 & Hk1).
  by exists e1, out.
Qed.

Lemma forEach_app {A} (l1 l2 : list A) (body : A → Go unit) (e : RuleEngine) :
  forEach (l1 ++ l2) body e = (forEach l1 body ;; forEach l2 body) e.
Proof.
  revert e. induction l1 as [|x l1 IH]; intros e; simpl.
  - unfold mbind, Go_bind. simpl. by destruct (forEach l2 body e).
  - unfold mbind, Go_bind. destruct (body x e) as [[] e1 o1|]; [|done].
    rewrite IH. unfold mbind, Go_bind.
    destruct (forEach l1 body e1) as [[] e2 o2|]; [|done].
    destruct (forEach l2 body e2) as [[] e3 o3|]; [|done].
    by rewrite app_assoc.
Qed.

(** The checks of a pass that have come back leave the registry well
    formed, with every name it had. *)
Lemma forEach_checkByName_wf (cell : option Cell) (names : list string)
    (e0 e1 : RuleEngine) (out : list Event) :
  hostKeepsRegistry →
  wfRegistry e0 →
  (∀ nm, nm ∈ names → is_Some (ruleMap e0 !! nm)) →
  forEach names (checkByName cell) e0 = Done tt e1 out →
  wfRegistry e1 ∧ keepsRegistry e0 e1.
Proof.
  intros Hh. revert e0 out.
  induction names as [|nm names IH]; intros e0 out Hwf0 Hdom; simpl.
  - intros [= <- _]. split; [done | apply keepsRegistry_refl].
  - destruct (Hdom nm) as [p Hp]; [by left|].
    destruct (proj1 (proj2 (proj2 Hwf0)) nm p Hp) as (r & Hr & Ht).
    destruct (Check_returns p cell e0 r Hh Hwf0 Hr Ht)
      as (e' & o1 & Hrun & Hwf1 & Hk1).
    unfold mbind, Go_bind.
    rewrite (checkByName_eq cell nm p e0 Hp), Hrun.
    destruct (forEach names (checkByName cell) e') as [[] e2 o2|] eqn:Hrest; [|done].
    intros [= <- _].
    destruct (IH e' o2 Hwf1) as [Hwf2 Hk2]; [|exact Hrest|].
    { intros nm' Hin. apply Hk1, Hdom. by right. }
    split; [done | by eapply keepsRegistry_trans].
Qed.

(** A pass of [RunRules] on a well-formed registry meets no missing and
    no destroyed rule: when the marking is done and the checks of the
    names before [nm] in [ruleList] have come back, [nm] still has a rule
    object in [ruleMap], that object is not destroyed, and the pass goes
    on with its [Check] -- with scripts that themselves leave the registry
    well formed, which [defineRule] does.  Nothing is said of a pass in
    which a call does not come back. *)
Theorem RunRules_checks_live_rules (cellSpec : option CellSpec)
    (e e0 e1 : RuleEngine) (cell : option Cell) (checked : list string)
    (nm : string) (todo : list string) (out0 out : list Event) :
  hostKeepsRegistry →
  wfRegistry e →
  match cellSpec with
  | Some spec => (c ← markRules spec; mret (Some c)) e
  | None => Done None e []
  end = Done cell e0 out0 →
  ruleList e0 = checked ++ nm :: todo →
  forEach checked (checkByName cell) e0 = Done tt e1 out →
  wfRegistry e1 ∧
  ∃ (p : RulePtr) (r : Rule),
    ruleMap e1 !! nm = Some p ∧ heap e1 !! p = Some r ∧
    ruleType r ≠ RULE_TYPE_NONE ∧
    RunRules cellSpec e =
      after (out0 ++ out)
        ((Check p cell ;; forEach todo (checkByName cell)) e1).
Proof.
  intros Hh Hwf Hmark Hlist Hchecked.
  assert (Hwf0 : wfRegistry e0 ∧ ruleList e0 = ruleList e ∧ ruleMap e0 = ruleMap e).
  { destruct cellSpec as [spec|].
    - revert Hmark. erewrite bind_nil by apply markRules_eq.
      intros [= _ <- _]. split; [by apply wfRegistry_markAll | done].
    - injection Hmark as _ <- _. done. }
  destruct Hwf0 as (Hwf0 & Hl0 & Hm0).
  assert (Hdom : ∀ nm', nm' ∈ ruleList e0 → is_Some (ruleMap e0 !! nm'))
    by (intros nm'; apply Hwf0).
  destruct (forEach_checkByName_wf cell checked e0 e1 out Hh Hwf0) as [Hwf1 Hk1];
    [|exact Hchecked|].
  { intros nm' Hin. apply Hdom. rewrite Hlist. apply elem_of_app. by left. }
  split; [exact Hwf1|].
  destruct (proj2 Hk1 nm) as [p Hp].
  { apply Hdom. rewrite Hlist. apply elem_of_app. right. by left. }
  destruct (proj1 (proj2 (proj2 Hwf1)) nm p Hp) as (r & Hr & Ht).
  exists p, r. split; [exact Hp|]. split; [exact Hr|]. split; [exact Ht|].
  unfold RunRules.
  assert (Hpass : forEach (ruleList e0) (checkByName cell) e0 =
                  after out ((Check p cell ;; forEach todo (checkByName cell)) e1)).
  { rewrite Hlist, forEach_app. erewrite bind_out by exact Hchecked.
    cbn [forEach]. unfold mbind, Go_bind.
    by rewrite (checkByName_eq cell nm p e1 Hp). }
  destruct cellSpec as [spec|].
  - erewrite bind_out by exact Hmark. go_step.
    by rewrite Hpass, after_after.
  - injection Hmark as <- <- <-. go_step. go_step.
    by rewrite Hpass.
Qed.

(** *** [publish] *)

(** [publish] hands a message to the MQTT client exactly when it returns
    0, and then it was called with a string topic, a payload and at most a
    QoS and a retain flag; the QoS of the message is 0, 1 or 2 -- 0 when
    none is given --, and the message is retained only on request. *)
Theorem esPublish_message `{!Coercions} (args : list JSValue) :
  match (esPublish args).2 with
  | Some msg =>
      (esPublish args).1 = Ret0 ∧ 0 ≤ QoS msg ≤ 2 ∧
      ∃ t payload rest,
        args = JSStr t :: payload :: rest ∧
        Topic msg = t ∧ Payload msg = SafeToString payload ∧
        match rest with
        | [] => QoS msg = 0 ∧ Retained msg = false
        | [q] => QoS msg = ToInt q ∧ Retained msg = false
        | [q; r] => QoS msg = ToInt q ∧ Retained msg = ToBoolean r
        | _ => False
        end
  | None => (esPublish args).1 = DUK_RET_ERROR ∨ (esPublish args).1 = DUK_RET_TYPE_ERROR
  end.
Proof.
  assert (Hmod : ∀ q, (q <? 0) || (2 <? q) = false → 0 ≤ q ≤ 2 ∧ q `mod` 256 = q).
  { intros q [H1 H2]%orb_false_iff. apply Z.ltb_ge in H1, H2.
    split; [lia|]. apply Z.mod_small. lia. }
  unfold esPublish, publishTopicPayload.
  destruct args as [|a [|b [|c [|d [|x args]]]]]; cbn -[Z.ltb Z.modulo]; auto.
  - destruct a; cbn -[Z.ltb Z.modulo]; auto.
    split; [done|]. split; [done|]. by eexists _, _, [].
  - destruct ((ToInt c <? 0) || (2 <? ToInt c)) eqn:Hq;
      cbn -[Z.ltb Z.modulo]; [by left|].
    destruct (Hmod _ Hq) as [Hr Hm]. destruct a; cbn -[Z.ltb Z.modulo]; auto.
    rewrite Hm. split; [done|]. split; [done|]. by eexists _, _, [_].
  - destruct ((ToInt c <? 0) || (2 <? ToInt c)) eqn:Hq;
      cbn -[Z.ltb Z.modulo]; [by left|].
    destruct (Hmod _ Hq) as [Hr Hm]. destruct a; cbn -[Z.ltb Z.modulo]; auto.
    rewrite Hm. split; [done|]. split; [done|]. by eexists _, _, [_; _].
Qed.

(** *** [spawn] *)

(** [spawn] with a command and a function as exit callback stores the
    callback under the next handle before it looks at the stdin argument:
    with a string or null there the command is started with that handle,
    with anything else the call fails with [DUK_RET_ERROR] and the
    callback stays in the [processes] list all the same. *)
Theorem esWbSpawn_stores_callback_first (items : list JSValue) (f : nat)
    (co ce : bool) (a4 : JSValue) (e : RuleEngine) :
  StringArrayToGo (JSArray items) ≠ [] →
  ∃ ret e1,
    esWbSpawn [JSArray items; JSFunc f; JSBool co; JSBool ce; a4] e = Done ret e1 [] ∧
    getList processes (stash e1) !! callbackIndex e = Some (JSFunc f) ∧
    callbackIndex e1 = (callbackIndex e + 1) `mod` esCallback_modulus ∧
    ret =
      if IsString a4 || IsNullOrUndefined a4
      then (Ret0,
            Some (mkSpawnRequest (StringArrayToGo (JSArray items)) co ce
                    (if IsString a4 then Some (GetString a4) else None)
                    (callbackIndex e)))
      else (DUK_RET_ERROR, None).
Proof.
  intros Hne. unfold esWbSpawn. simpl.
  rewrite bool_decide_false
    by (intros Hl; apply Hne; by apply nil_length_inv).
  erewrite bind_nil by reflexivity. simpl.
  destruct a4; simpl; eexists _, _; (split; [reflexivity|]);
    (split; [apply lookup_insert_eq|]); split; reflexivity.
Qed.

(** When the command has run, its exit callback is called with the exit
    status, with the captured error output in any case and with the
    captured output only if that was asked for; if that call comes back,
    its handle is gone from [processes] afterwards and nothing else
    happens.  When the command could not be started, the callback is
    neither called nor released. *)
Theorem spawnReturned_calls_back_once (req : SpawnRequest) (r : SpawnResult)
    (err : string) (e e1 : RuleEngine) (b : bool) (out : list Event) :
  0 < callbackHandle req →
  invokeCallback processes (callbackHandle req) (Some (exitArgs req r)) e =
    Done b e1 out →
  (∃ e2 rest,
     spawnReturned req (inr r) e = Done None e2 out ∧
     out = EvCall processes (callbackHandle req) (Some (exitArgs req r)) :: rest ∧
     getList processes (stash e2) =
       delete (callbackHandle req) (getList processes (stash e1)) ∧
     getList ruleFuncs (stash e2) = getList ruleFuncs (stash e1) ∧
     getList ruleEngineTimers (stash e2) = getList ruleEngineTimers (stash e1)) ∧
  exitArgs req r !! "exitStatus" = Some (VNum (ExitStatus r)) ∧
  exitArgs req r !! "capturedErrorOutput" = Some (VStr (CapturedErrorOutput r)) ∧
  exitArgs req r !! "capturedOutput" =
    (if captureOutput req then Some (VStr (CapturedOutput r)) else None) ∧
  spawnReturned req (inl err) e = Done (Some (ExternalCommandFailed err)) e [].
Proof.
  intros Hcb Hcall. split; [|split; [|split; [|split]]].
  - destruct (invokeCallback_calls processes (callbackHandle req)
                (Some (exitArgs req r)) e) as (b' & e1' & rest & Hcall').
    rewrite Hcall in Hcall'. injection Hcall' as _ _ Hout.
    eexists _, rest. unfold spawnReturned.
    replace (0 <? callbackHandle req) with true by (symmetry; by apply Z.ltb_lt).
    erewrite bind_out by exact Hcall.
    unfold removeCallback. go_step. simpl. rewrite app_nil_r.
    repeat split; done.
  - unfold exitArgs. destruct (captureOutput req); by simplify_map_eq.
  - unfold exitArgs. by simplify_map_eq.
  - unfold exitArgs. destruct (captureOutput req); by simplify_map_eq.
  - reflexivity.
Qed.

(** *** The runtime's timer functions and rule bodies *)

(** The named timers of the runtime do not reach the engine: [startTimer]
    and [startTicker] pass the name where [_wbStartTimer] wants a function,
    [timers[name].stop] passes it where [_wbStopTimer] wants a number, and
    each call throws and leaves the engine as it is; [setTimeout] with a
    function and a number returns the id 1. *)
Theorem named_timers_throw (name : string) (ms : JSValue) (f : nat) (n : Z)
    (st : Lib.State) :
  Runtime.startTimer (JSStr name) ms st =
    Some (Lib.Throw (Lib.OtherError "Error"), st) ∧
  Runtime.startTicker (JSStr name) ms st =
    Some (Lib.Throw (Lib.OtherError "Error"), st) ∧
  Runtime.timers_stop (JSStr name) st =
    Some (Lib.Throw (Lib.OtherError "Error"), st) ∧
  ∃ st1, Runtime.setTimeout (JSFunc f) (JSNum n) st =
           Some (Lib.Return (JSNum 1), st1).
Proof.
  destruct st as [counter e]. repeat split.
  unfold Runtime.setTimeout, Runtime.callGo. cbn [Lib.engine].
  destruct (esWbStartTimer_returns_1 f n (JSBool false) e eq_refl) as [e1 ->].
  by eexists.
Qed.

(** The body of an [onCellChange] rule is called with the new value, the
    device name and the cell name, in this order; the [oldValue] that
    [Check] puts into the argument object is not passed on.  The body of a
    [when] or [asSoonAs] rule is called without arguments. *)
Theorem then_body_arguments (cell : Cell) (newValue oldValue : Value) :
  Runtime.thenArguments (Some (changeArgs cell newValue oldValue)) =
    [newValue; VStr (DevName cell); VStr (CellName cell)] ∧
  Runtime.thenArguments None = [].
Proof.
  split; [|reflexivity].
  unfold Runtime.thenArguments, changeArgs.
  rewrite bool_decide_true by (by simplify_map_eq).
  by simplify_map_eq.
Qed.

(** *** Cell references *)

Lemma substring_all (s : string) : String.substring 0 (String.length s) s = s.
Proof. induction s as [|c s IH]; simpl; [done | by rewrite IH]. Qed.

Lemma substring_prefix (a t : string) :
  String.substring 0 (String.length a) (String.append a t) = a.
Proof.
  induction a as [|c a IH]; simpl; [by destruct t | by rewrite IH].
Qed.

Lemma substring_suffix (a b : string) :
  String.substring (S (String.length a)) (String.length b)
    (String.append a (String "/" b)) = b.
Proof. induction a as [|c a IH]; simpl; [apply substring_all | exact IH]. Qed.

Lemma length_append (a t : string) :
  String.length (String.append a t) = (String.length a + String.length t)%nat.
Proof. induction a as [|c a IH]; simpl; [done | by rewrite IH]. Qed.

Lemma splitSlash_indexOf (s : string) :
  match splitSlash s with
  | Some (a, b) =>
      Runtime.indexOfSlash s = Z.of_nat (String.length a) ∧
      s = String.append a (String "/" b)
  | None => Runtime.indexOfSlash s = -1
  end.
Proof.
  induction s as [|c s IH]; simpl; [done|].
  destruct (Ascii.eqb c "/") eqn:Hc.
  - apply Ascii.eqb_eq in Hc. by subst c.
  - destruct (splitSlash s) as [[a b]|].
    + destruct IH as [Hi Hs]. rewrite Hi. simpl.
      replace (Z.of_nat (String.length a) <? 0) with false
        by (symmetry; apply Z.ltb_ge; lia).
      split; [lia | exact (f_equal (String c) Hs)].
    + by rewrite IH.
Qed.

(** The script runtime and the engine read a cell reference the same way:
    [dev["d/c"]] addresses the device and the cell that [newRule] takes out
    of an [onCellChange] name with [strings.SplitN], the name being cut at
    its first slash.  The runtime wants both parts non-empty; the engine
    takes an empty device or cell name as well. *)
Theorem devRef_agrees_with_SplitN (name d c : string) :
  Runtime.devRef name = Some (d, c) ↔
  splitSlash name = Some (d, c) ∧ d ≠ EmptyString ∧ c ≠ EmptyString.
Proof.
  unfold Runtime.devRef. pose proof (splitSlash_indexOf name) as Hs.
  destruct (splitSlash name) as [[a b]|].
  - destruct Hs as [Hi Hn]. rewrite Hi.
    assert (Hlen : String.length name = (String.length a + S (String.length b))%nat)
      by (by rewrite Hn at 1; rewrite length_append).
    assert (Hsub1 : String.substring 0 (Z.to_nat (Z.of_nat (String.length a))) name = a).
    { rewrite Nat2Z.id. rewrite Hn at 1. apply substring_prefix. }
    assert (Hsub2 : String.substring (Z.to_nat (Z.of_nat (String.length a) + 1))
                      (String.length name - Z.to_nat (Z.of_nat (String.length a) + 1)) name = b).
    { replace (Z.to_nat (Z.of_nat (String.length a) + 1)) with (S (String.length a)) by lia.
      replace (String.length name - S (String.length a))%nat with (String.length b) by lia.
      rewrite Hn at 1. apply substring_suffix. }
    rewrite Hsub1, Hsub2.
    destruct a as [|ca a]; destruct b as [|cb b].
    + simpl. split; [done | by intros ([= <- <-] & ? & ?)].
    + simpl. split; [done | by intros ([= <- <-] & ? & ?)].
    + replace ((0 <? Z.of_nat (String.length (String ca a))) &&
               (Z.of_nat (String.length (String ca a)) <? Z.of_nat (String.length name) - 1))
        with false.
      2:{ symmetry. apply andb_false_iff. right. apply Z.ltb_ge. simpl in *. lia. }
      split; [done | by intros ([= <- <-] & ? & ?)].
    + replace ((0 <? Z.of_nat (String.length (String ca a))) &&
               (Z.of_nat (String.length (String ca a)) <? Z.of_nat (String.length name) - 1))
        with true.
      2:{ symmetry. apply andb_true_iff.
          split; [apply Z.ltb_lt | apply Z.ltb_lt]; simpl in *; lia. }
      split.
      * intros [= <- <-]. done.
      * intros ([= <- <-] & _). done.
  - rewrite Hs. simpl. split; [done | by intros [? _]].
Qed.

(** A read of a cell through the device proxy notes the cell whenever
    tracking is on -- also when the read throws because the cell is
    incomplete, so that the rule is listed under the cell it is waiting
    for -- and changes nothing else; it throws exactly when the counter is
    not zero and the cell is incomplete, and else returns the cell's
    value, which in a rule body is the current value of an incomplete cell
    too. *)
Theorem devGet_notes_the_cell (devName cellName : string) (st : Lib.State) :
  let cell := (devName, cellName) in
  let complete := from_option cellComplete false (model (Lib.engine st) !! cell) in
  let v := from_option cellValue VNil (model (Lib.engine st) !! cell) in
  Lib.devGet devName cellName st =
    (if negb (Lib.requireCompleteCells st =? 0) && negb complete
     then Lib.Throw (Lib.IncompleteCellCaught cellName)
     else Lib.Return (Lib.toJS v),
     Lib.mkState (Lib.requireCompleteCells st)
       (match notedCells (Lib.engine st) with
        | Some noted => set_notedCells (Some ({[cell]} ∪ noted)) (Lib.engine st)
        | None => Lib.engine st
        end)).
Proof.
  intros cell complete v. destruct st as [counter e].
  unfold Lib.devGet, Lib.cell_isComplete, Lib.cell_value, Lib.bridge, Lib.throw,
    mbind, Lib.JS_bind, trackCell, IsComplete, CellValue, modify, gets, Go_bind.
  simpl. fold cell. unfold complete, v. simpl.
  destruct (counter =? 0); simpl.
  - destruct (notedCells e) as [noted|]; simpl; reflexivity.
  - destruct (notedCells e) as [noted|] eqn:Hn; simpl;
      destruct (from_option cellComplete false (model e !! cell)); simpl;
      rewrite ?Hn; try reflexivity.
    rewrite (assoc_L (∪)), (idemp_L (∪)). by destruct e.
Qed.

(** *** [Notify.sendSMS] *)


Lemma sms_run_without_format (g : Notify.Globals) (steps : list Notify.Step) :
  Notify.hasFormat g = false →
  ∀ st0 started0 st running started,
    Notify.run g steps st0 0 started0 = Some (st, running, started) →
    started = started0 ∧ running = 0%nat ∧ Notify.exits steps = 0%nat ∧
    if Notify.smsBusy st0
    then st = Notify.mkState (Notify.smsQueue st0 ++ Notify.requested steps) true
    else match Notify.requested steps with
         | [] => st = st0
         | _ :: waiting =>
             st = Notify.mkState (Notify.smsQueue st0 ++ waiting) true
         end.
Proof.
  intros Hf. unfold Notify.requested, Notify.exits, omap.
  induction steps as [|step steps IH]; intros [q0 b0] started0 st running started Hrun.
  - injection Hrun as <- <- <-. simpl. rewrite app_nil_r.
    split; [done|]. split; [done|]. split; [done|]. by destruct b0.
  - destruct step as [m|code]; simpl in Hrun |- *; [|done].
    unfold Notify.sendSMS, Notify.doSend in Hrun. simpl in Hrun.
    destruct b0; [|rewrite Hf in Hrun]; simpl in Hrun.
    + apply IH in Hrun as (H1 & H2 & H3 & H4). simpl in H1, H4.
      rewrite app_nil_r in H1.
      split; [done|]. split; [done|]. split; [done|].
      by rewrite H4, <- app_assoc.
    + apply IH in Hrun as (H1 & H2 & H3 & H4). simpl in H1, H4.
      rewrite app_nil_r in H1. done.
Qed.


(** Without a global [format] -- which is how [NewRuleEngine] and the
    library leave the global scope -- [Notify.sendSMS] starts no command
    at all: the first call sets [_smsBusy], throws, and loses its
    message; every later call finds [_smsBusy] set and puts its message
    into the queue, which nothing ever takes it from, as no command runs
    whose exit would advance it. *)
Theorem sendSMS_without_format (g : Notify.Globals) (steps : list Notify.Step)
    (st : Notify.State) (running : nat) (started : list Notify.SMS) (m : Notify.SMS) :
  Notify.hasFormat g = false →
  Notify.run g steps (Notify.mkState [] false) 0 [] = Some (st, running, started) →
  Notify.hasFormat Notify.boundGlobals = false ∧
  Notify.sendSMS g m (Notify.mkState [] false) =
    (Notify.Threw "ReferenceError", Notify.mkState [] true, []) ∧
  started = [] ∧ running = 0%nat ∧ Notify.exits steps = 0%nat ∧
  match Notify.requested steps with
  | [] => st = Notify.mkState [] false
  | _ :: waiting => st = Notify.mkState waiting true
  end.
Proof.
  intros Hf Hrun. split; [reflexivity|]. split.
  { unfold Notify.sendSMS, Notify.doSend. simpl. by rewrite Hf. }
  destruct (sms_run_without_format g steps Hf (Notify.mkState [] false) [] st
              running started Hrun) as (H1 & H2 & H3 & H4).
  simpl in H4. done.
Qed.

(** *** The callbacks of a new rule *)

Lemma Destroy_other_handles (rule : RulePtr) (e : RuleEngine) (r : Rule) :
  heap e !! rule = Some r →
  ∃ e1,
    Destroy rule e = Done tt e1 [] ∧
    (∀ k, k ≠ cond r → k ≠ then_ r →
       getList ruleFuncs (stash e1) !! k = getList ruleFuncs (stash e) !! k) ∧
    (∀ p : RulePtr, p ≠ rule → heap e1 !! p = heap e !! p) ∧
    ruleMap e1 = ruleMap e ∧ ruleList e1 = ruleList e.
Proof.
  intros Hr. unfold Destroy. go_step.
  destruct (bool_decide (cond r ≠ 0)) eqn:Hc;
    destruct (bool_decide (then_ r ≠ 0)) eqn:Ht.
  all: erewrite bind_nil by reflexivity.
  all: erewrite bind_nil by (apply deref_Some; exact Hr).
  all: rewrite Ht.
  all: erewrite bind_nil by reflexivity.
  all: erewrite update_Some by exact Hr.
  all: eexists; split; [reflexivity|]; simpl.
  all: split; [intros k Hk1 Hk2; by rewrite ?lookup_delete_ne by done|].
  all: split; [intros p Hp; by rewrite list_lookup_insert_ne by done|].
  all: split; reflexivity.
Qed.

Lemma newRule_condition_rule (nm : string) (def : JSValue) (e : RuleEngine) (w : bool) :
  HasPropString def "then" = true →
  HasPropString def "when" = w →
  HasPropString def "asSoonAs" = negb w →
  HasPropString def "onCellChange" = false →
  ∃ e1,
    newRule nm def e = Done (inl (length (heap e))) e1 [] ∧
    heap e1 =
      heap e ++ [mkRule nm ((callbackIndex e + 1) `mod` esCallback_modulus)
                   (callbackIndex e) []
                   (if w then RULE_TYPE_LEVEL_TRIGGERED else RULE_TYPE_EDGE_TRIGGERED)
                   true false VNil false] ∧
    ruleMap e1 = ruleMap e ∧ ruleList e1 = ruleList e ∧
    getList ruleFuncs (stash e1) =
      <[(callbackIndex e + 1) `mod` esCallback_modulus :=
          GetPropString def (if w then "when" else "asSoonAs")]>
        (<[callbackIndex e := GetPropString def "then"]>
           (getList ruleFuncs (stash e))).
Proof.
  intros Hthen Hw Ha Ho. unfold newRule. go_step. go_step.
  rewrite Hthen, Hw, Ha, Ho. simpl.
  erewrite bind_nil by reflexivity.
  erewrite bind_nil by (apply update_last; reflexivity).
  destruct w; simpl.
  all: erewrite bind_nil by reflexivity.
  all: erewrite bind_nil by (apply update_last; reflexivity).
  all: erewrite bind_nil by (apply update_last; reflexivity).
  all: eexists; split; [reflexivity|]; simpl.
  all: repeat split; reflexivity.
Qed.

(** A rule defined with [then] and a condition -- [when] or [asSoonAs] --
    is wired to the functions of its definition: the rule object the name
    points to holds two distinct handles, taken from the counter, under
    which [ruleFuncs] has the body and the condition of the definition.
    This holds when the name is defined again as well, the handles of the
    rule that is destroyed being other ones. *)
Theorem esWbDefineRule_wires_callbacks (nm : string) (def : JSValue)
    (e : RuleEngine) (w : bool) :
  IsObject def = true →
  triggerOf def =
    Some (if w then RULE_TYPE_LEVEL_TRIGGERED else RULE_TYPE_EDGE_TRIGGERED) →
  let h := callbackIndex e in
  let c := (callbackIndex e + 1) `mod` esCallback_modulus in
  (∀ old : RulePtr, ruleMap e !! nm = Some old →
     ∃ rOld, heap e !! old = Some rOld ∧
             cond rOld ≠ h ∧ cond rOld ≠ c ∧ then_ rOld ≠ h ∧ then_ rOld ≠ c) →
  ∃ e2 r,
    esWbDefineRule [JSStr nm; def] e = Done Ret0 e2 [] ∧
    ruleMap e2 !! nm = Some (length (heap e)) ∧
    heap e2 !! length (heap e) = Some r ∧
    then_ r = h ∧ cond r = c ∧ h ≠ c ∧
    getList ruleFuncs (stash e2) !! h = Some (GetPropString def "then") ∧
    getList ruleFuncs (stash e2) !! c =
      Some (GetPropString def (if w then "when" else "asSoonAs")).
Proof.
  intros Hobj Htrig h c Hold.
  assert (Hhc : h ≠ c).
  { unfold h, c, esCallback_modulus. intros Heq.
    pose proof (Z.mod_pos_bound (callbackIndex e + 1) (2 ^ 64) ltac:(lia)) as Hb.
    destruct (decide (callbackIndex e + 1 = 2 ^ 64)) as [Hm|Hm].
    - rewrite Hm, Z.mod_same in Heq by lia. lia.
    - destruct (decide (0 ≤ callbackIndex e + 1 < 2 ^ 64)) as [Hr|Hr].
      + rewrite Z.mod_small in Heq by lia. lia.
      + lia. }
  assert (Hprops : HasPropString def "then" = true ∧ HasPropString def "when" = w ∧
                   HasPropString def "asSoonAs" = negb w ∧
                   HasPropString def "onCellChange" = false).
  { unfold triggerOf in Htrig.
    destruct (HasPropString def "then"); [|done].
    destruct (HasPropString def "when"), (HasPropString def "asSoonAs"),
      (HasPropString def "onCellChange"); simpl in Htrig; try done.
    - by destruct w.
    - by destruct w.
    - destruct (_ && _) in Htrig; [|done]. by destruct w. }
  destruct Hprops as (Hthen & Hw & Ha & Ho).
  destruct (newRule_condition_rule nm def e w Hthen Hw Ha Ho)
    as (e1 & Hnew & Hheap & Hmap & Hlist & Hfuncs).
  unfold esWbDefineRule. rewrite Hobj. simpl.
  erewrite bind_nil by exact Hnew. cbv beta iota.
  go_step. rewrite Hmap.
  assert (Hlast : heap e1 !! length (heap e) =
                  Some (mkRule nm c h []
                          (if w then RULE_TYPE_LEVEL_TRIGGERED else RULE_TYPE_EDGE_TRIGGERED)
                          true false VNil false)).
  { rewrite Hheap, lookup_app_r by lia. by rewrite Nat.sub_diag. }
  destruct (ruleMap e !! nm) as [old|] eqn:Hlook.
  - destruct (Hold old eq_refl) as (rOld & HrOld & Hc1 & Hc2 & Ht1 & Ht2).
    assert (Hlt : (old < length (heap e))%nat) by (by eapply lookup_lt_Some).
    assert (HrOld1 : heap e1 !! old = Some rOld)
      by (by rewrite Hheap, lookup_app_l by lia).
    destruct (Destroy_other_handles old e1 rOld HrOld1)
      as (e1' & HD & Hkeys & Hobjs & _ & _).
    erewrite bind_nil by exact HD. go_step.
    eexists _, _. split; [reflexivity|]. simpl.
    split; [apply lookup_insert_eq|].
    split; [rewrite Hobjs by lia; exact Hlast|]. simpl.
    split; [done|]. split; [done|]. split; [done|].
    split.
    + rewrite Hkeys by done. rewrite Hfuncs.
      rewrite lookup_insert_ne by done. apply lookup_insert_eq.
    + rewrite Hkeys by done. rewrite Hfuncs. apply lookup_insert_eq.
  - go_step. go_step.
    eexists _, _. split; [reflexivity|]. simpl.
    split; [apply lookup_insert_eq|].
    split; [exact Hlast|]. simpl.
    split; [done|]. split; [done|]. split; [done|].
    split.
    + simpl in Hfuncs. rewrite Hfuncs.
      rewrite lookup_insert_ne by done. apply lookup_insert_eq.
    + simpl in Hfuncs. rewrite Hfuncs. apply lookup_insert_eq.
Qed.

End Proofs.

(** ** The theorems at concrete engines *)

(** First evaluation of an edge-triggered rule whose condition is true: the
    condition (handle 1) is called, then the body (handle 2). *)
Lemma Check_edge_triggered_witness :
  Check (H := demoHost) 0 None (edgeEngine 0 true false false) =
    Done tt (set_rulesWithoutCells {[ 0%nat ]} (edgeEngine 0 false true false))
      [EvCall ruleFuncs 1 None; EvNoCells "r"; EvCall ruleFuncs 2 None].
Proof.
  refine (eq_trans (proj2 (Check_edge_triggered (H := demoHost) 0 None
            (edgeEngine 0 true false false) _ _ _ _ _
            eq_refl eq_refl (or_introl eq_refl) eq_refl eq_refl)) _).
  vm_compute. reflexivity.
Defined.

(** C2 as stated fails: the condition of this edge-triggered rule throws,
    and the pass overwrites the stored [prevCondValue = true] with false. *)
Lemma Check_condition_throws_overwrites_prevCondValue :
  exec (ScriptHost := demoHost) 2 None
       (set_notedCells (Some ∅) (edgeEngine 2 false true false)) =
    (None, set_notedCells (Some ∅) (edgeEngine 2 false true false)) ∧
  (prevCondValue <$> heap (edgeEngine 2 false true false) !! 0%nat) = Some true ∧
  ∃ e2 out,
    Check (H := demoHost) 0 None (edgeEngine 2 false true false) = Done tt e2 out ∧
    (prevCondValue <$> heap e2 !! 0%nat) = Some false.
Proof.
  split; [reflexivity|]. split; [reflexivity|].
  eexists _, _. split; vm_compute; reflexivity.
Qed.

(** The edge-triggered rule whose condition throws, on a forced pass. *)
Lemma Check_condition_throws_witness :
  ∃ e2 out,
    Check (H := demoHost) 0 None (edgeEngine 2 false true false) =
      Done tt e2 (EvCall ruleFuncs 1 None :: EvCallFailed ruleFuncs 1 :: out) ∧
    (∀ ev, ev ∈ out → ev = EvNoCells "r") ∧
    heap e2 !! 0%nat =
      Some (mkRule "r" 1 2 [] RULE_TYPE_EDGE_TRIGGERED false false VNil false).
Proof.
  exact (Check_condition_throws (H := demoHost) 0 None
           (edgeEngine 2 false true false)
           _ _ _ 2 eq_refl (or_intror eq_refl) (or_introl eq_refl)
           eq_refl eq_refl eq_refl).
Defined.

(** C3 as stated fails: the cell [A/x] has never been seen on the bus, and
    the notification still marks the rule [q] of [rulesWithoutCells], at
    address 1, whose condition (handle 4) the pass then evaluates; the rule
    [r] listed under [A/x] is left alone. *)
Lemma RunRules_incomplete_cell_marks_rulesWithoutCells :
  from_option cellComplete false (model trackedEngine !! ("A", "x")) = false ∧
  rulesWithoutCells trackedEngine = {[ 1%nat ]} ∧
  (shouldCheck <$> heap trackedEngine !! 1%nat) = Some false ∧
  (∃ e1,
     markRules (mkCellSpec "A" "x") trackedEngine = Done ("A", "x") e1 [] ∧
     (shouldCheck <$> heap e1 !! 1%nat) = Some true) ∧
  RunRules (H := demoHost) (Some (mkCellSpec "A" "x")) trackedEngine =
    Done tt trackedEngine [EvCall ruleFuncs 4 None; EvNoCells "q"].
Proof.
  split; [reflexivity|]. split; [vm_compute; reflexivity|].
  split; [vm_compute; reflexivity|]. split.
  - eexists. split; vm_compute; reflexivity.
  - vm_compute. reflexivity.
Qed.

(** The marking for the unseen cell [A/x], with the rule at 0 listed under
    the cell and the rule at 1 in [rulesWithoutCells]. *)
Lemma markRules_incomplete_cell_witness :
  ∃ e1,
    markRules (mkCellSpec "A" "x") trackedEngine = Done ("A", "x") e1 [] ∧
    sameButHeap trackedEngine e1 ∧
    ∀ p : RulePtr,
      heap e1 !! p =
        if bool_decide (p ∈ rulesWithoutCells trackedEngine)
        then set_shouldCheck true <$> heap trackedEngine !! p
        else heap trackedEngine !! p.
Proof.
  exact (markRules_incomplete_cell (mkCellSpec "A" "x") trackedEngine eq_refl).
Defined.

(** A rule that has not been marked, on a notification for the cell [A/x]. *)
Lemma Check_not_marked_is_noop_witness :
  Check (H := demoHost) 0 (Some ("A", "x")) (edgeEngine 0 true false false) =
    Done tt (edgeEngine 0 true false false) [].
Proof.
  apply (Check_not_marked_is_noop (H := demoHost) 0 ("A", "x")
           (edgeEngine 0 true false false) _ eq_refl eq_refl).
Defined.

(** C4 fails on the code, on the table that one [setInterval (f5, 50)] on
    a new engine leaves: its only slot holds the running periodic timer.
    A second timer started then finds slot 1 taken, the loop breaks in its
    first round with [n = 1], and as [n] is not beyond the table nothing is
    appended.  The call returns the id 1, the table is as it was (the new
    entry is in no slot), and the callback of timer 1 is replaced by the
    new one.  The smallest free slot is 2, past the end of the table. *)
Theorem esWbStartTimer_slot1_taken (platform : Platform) :
  esWbStartTimer [JSFunc 5%nat; JSNum 50; JSBool true] (NewRuleEngine ∅) =
    Done (Ret1 (JSNum 1)) runningTimerEngine [] ∧
  timers runningTimerEngine = [Some (mkTimerEntry true 50)] ∧
  getList ruleEngineTimers (stash runningTimerEngine) = {[ 1 := JSFunc 5%nat ]} ∧
  esWbStartTimer [JSFunc 6%nat; JSNum 100; JSBool false] runningTimerEngine =
    Done (Ret1 (JSNum 1))
      (set_stash (mkStash {[ 1 := JSFunc 6%nat ]} ∅ ∅) runningTimerEngine) [] ∧
  timers (set_stash (mkStash {[ 1 := JSFunc 6%nat ]} ∅ ∅) runningTimerEngine) =
    [Some (mkTimerEntry true 50)] ∧
  smallestFreeSlot 1 (timers runningTimerEngine) = 2.
Proof. repeat split; vm_compute; reflexivity. Qed.

(** C5 fails on the code: with two slots in the table, stopping timer 5 or
    timer -1 indexes the table out of range, where Go panics. *)
Theorem esWbStopTimer_unknown_id_panics :
  esWbStopTimer [JSNum 5] timerEngine = Panic "index out of range" ∧
  esWbStopTimer [JSNum (-1)] timerEngine = Panic "index out of range" ∧
  esWbStopTimer [JSNum 1] (NewRuleEngine ∅) = Panic "index out of range".
Proof. repeat split; vm_compute; reflexivity. Qed.

(** The ids for which [stopTimer] is the logged no-op: 0, and the free
    slot 2 of the table. *)
Lemma esWbStopTimer_free_slot_examples :
  esWbStopTimer [JSNum 0] timerEngine = Done Ret0 timerEngine [EvTimerIdZero] ∧
  esWbStopTimer [JSNum 2] timerEngine = Done Ret0 timerEngine [EvStopUnknownTimer 2].
Proof.
  split.
  - apply (esWbStopTimer_free_slot 0 timerEngine). left. reflexivity.
  - apply (esWbStopTimer_free_slot 2 timerEngine). right.
    split; [simpl; lia | reflexivity].
Defined.

(** A condition that throws an error of its own under the protector, and a
    [when] condition that reads [Weather/Temp1] before its first value. *)
Lemma wrapConditionFunc_protects_witness :
  Lib.wrapConditionFunc failingCondition (JSBool false) (freshState 0) =
    (Lib.Throw (Lib.OtherError "TypeError"), freshState 0) ∧
  (Lib.devGet "Weather" "Temp1" (freshState 1)).1 =
    Lib.Throw (Lib.IncompleteCellCaught "Temp1") ∧
  (Lib.wrapWhen (Lib.devGet "Weather" "Temp1") (freshState 0)).1 =
    Lib.Return (JSBool false) ∧
  Lib.requireCompleteCells
    (Lib.wrapWhen (Lib.devGet "Weather" "Temp1") (freshState 0)).2 = 0.
Proof.
  split; [|split; [|split]].
  - exact (proj1 (wrapConditionFunc_protects failingCondition (JSBool false)
                    (freshState 0) "Weather" "Temp1")).
  - apply (proj1 (proj2 (wrapConditionFunc_protects failingCondition (JSBool false)
                    (freshState 1) "Weather" "Temp1")));
      [reflexivity | reflexivity].
  - apply (proj2 (proj2 (wrapConditionFunc_protects failingCondition (JSBool false)
                    (freshState 0) "Weather" "Temp1")));
      [discriminate | reflexivity].
  - apply (proj2 (proj2 (wrapConditionFunc_protects failingCondition (JSBool false)
                    (freshState 0) "Weather" "Temp1")));
      [discriminate | reflexivity].
Defined.

(** Scenario S6: with A, B and C defined in this order, defining B again
    leaves the order, destroys the rule at address 1 with its handles 3 and
    4, and registers the new rule at address 3. *)
Lemma esWbDefineRule_replaces_in_place_witness :
  ruleList threeRules = ["A"; "B"; "C"] ∧
  ruleMap threeRules !! "B" = Some 1%nat ∧
  (then_ <$> heap threeRules !! 1%nat) = Some 3 ∧
  (cond <$> heap threeRules !! 1%nat) = Some 4 ∧
  ∃ e2,
    esWbDefineRule [JSStr "B"; asSoonAsDef 0 4] threeRules = Done Ret0 e2 [] ∧
    ruleMap e2 !! "B" = Some 3%nat ∧
    (firstRun <$> heap e2 !! 3%nat) = Some true ∧
    ruleList e2 = ["A"; "B"; "C"] ∧
    (ruleType <$> heap e2 !! 1%nat) = Some RULE_TYPE_NONE ∧
    getList ruleFuncs (stash e2) !! 4 = None ∧
    getList ruleFuncs (stash e2) !! 3 = None.
Proof.
  do 4 (split; [vm_compute; reflexivity|]).
  destruct (esWbDefineRule_replaces_in_place "B" (asSoonAsDef 0 4) threeRules
              (engineOf (newRule "B" (asSoonAsDef 0 4) threeRules)) 3 []
              eq_refl ltac:(vm_compute; reflexivity))
    as (e2 & Hrun & Hmap & Hfirst & Hold).
  { intros old Hold. vm_compute in Hold. injection Hold as <-.
    eexists. vm_compute. reflexivity. }
  replace (ruleMap threeRules !! "B") with (Some 1%nat) in Hold
    by (vm_compute; reflexivity).
  destruct Hold as (rOld & HrOld & Hlist & Htype & Hcond & Hthen).
  vm_compute in HrOld. injection HrOld as <-.
  exists e2. split; [exact Hrun|]. split; [by rewrite Hmap|].
  split; [exact Hfirst|]. split; [by rewrite Hlist|]. split; [exact Htype|].
  split; [apply Hcond | apply Hthen]; discriminate.
Defined.



(** A pass in which the mark is lost on the way: [Weather/Temp1] is
    complete and watched by [tempChange], the marking marks both rules,
    the body of [rerun] (handle 1) calls [runRules ()], whose pass clears
    the mark of [tempChange], and the pass for the cell then passes
    [tempChange] by: its body (handle 2) is not called and its
    [oldCellValue] stays nil. *)
Lemma onCellChange_nested_pass_clears_mark :
  from_option cellComplete false
    (model (set_model (weatherModel 25) rerunEngine) !! ("Weather", "Temp1")) = true ∧
  (onCellChange <$> heap rerunEngine !! 1%nat) = Some [("Weather", "Temp1")] ∧
  (then_ <$> heap rerunEngine !! 1%nat) = Some 2 ∧
  (shouldCheck <$>
     heap (engineOf (markRules (mkCellSpec "Weather" "Temp1")
                       (set_model (weatherModel 25) rerunEngine))) !! 1%nat) =
    Some true ∧
  ∃ e1,
    RunRules (H := nestedHost) (Some (mkCellSpec "Weather" "Temp1"))
      (set_model (weatherModel 25) rerunEngine) =
      Done tt e1
        [EvCall ruleFuncs 1
           (Some (changeArgs ("Weather", "Temp1") (VNum 25) VNil))] ∧
    (oldCellValue <$> heap e1 !! 1%nat) = Some VNil.
Proof.
  do 4 (split; [vm_compute; reflexivity|]).
  eexists. split; vm_compute; reflexivity.
Qed.

(** The passes for 25 and then 30: the second body call gets the 25 of the
    first as [oldValue]. *)
Lemma onCellChange_second_oldValue :
  RunRules (H := demoHost) (Some (mkCellSpec "Weather" "Temp1"))
    (set_model (weatherModel 30)
       (engineOf (RunRules (H := demoHost) (Some (mkCellSpec "Weather" "Temp1"))
                    (set_model (weatherModel 25) tempEngine)))) =
    Done tt
      (withRule 0
         (mkRule "tempChange" 0 1 [("Weather", "Temp1")] RULE_TYPE_ON_CELL_CHANGE
                 false false (VNum 30) false)
         (set_model (weatherModel 30) tempEngine))
      [EvCall ruleFuncs 1
         (Some (changeArgs ("Weather", "Temp1") (VNum 30) (VNum 25)))].
Proof. vm_compute. reflexivity. Qed.

Lemma demoHost_grows : hostGrows (H := demoHost).
Proof.
  intros f args e. unfold exec, demoHost.
  do 4 (destruct f as [|f]; [try apply indexGrows_refl|]).
  2: apply indexGrows_refl.
  unfold trackCell, modify. destruct (notedCells e); simpl;
    by apply indexGrows_same.
Qed.

(** C9 as stated fails: after the rules at 0 and 1 have been destroyed by
    the redefinition of [r] and [q], the rule at 0 is still listed under
    [A/x] and the rule at 1 is still in [rulesWithoutCells]. *)
Lemma Destroy_keeps_index_entries :
  cellToRuleMap trackedEngine !! ("A", "x") = Some [0%nat] ∧
  rulesWithoutCells trackedEngine = {[ 1%nat ]} ∧
  (ruleType <$> heap redefinedEngine !! 0%nat) = Some RULE_TYPE_NONE ∧
  (ruleType <$> heap redefinedEngine !! 1%nat) = Some RULE_TYPE_NONE ∧
  cellToRuleMap redefinedEngine !! ("A", "x") = Some [0%nat] ∧
  rulesWithoutCells redefinedEngine = {[ 1%nat ]}.
Proof. repeat split; vm_compute; reflexivity. Qed.

(** The index around the destruction of the rule at 0 of [trackedEngine]. *)
Lemma dependency_index_only_grows_witness :
  (∃ e1 out, storeRuleTrackedCells 0 trackedEngine = Done tt e1 out ∧
             indexGrows trackedEngine e1) ∧
  (∃ e1, Destroy 0 trackedEngine = Done tt e1 [] ∧
         cellToRuleMap e1 = cellToRuleMap trackedEngine ∧
         rulesWithoutCells e1 = rulesWithoutCells trackedEngine).
Proof.
  destruct (dependency_index_only_grows (H := demoHost) 0
              (mkRule "r" 2 1 [] RULE_TYPE_EDGE_TRIGGERED false true VNil false)
              ("A", "x") None [] trackedEngine demoHost_grows
              ltac:(vm_compute; reflexivity))
    as (_ & Htracked & _ & _ & Hdestroy).
  split; [exact Htracked | exact Hdestroy].
Defined.

(** Edge-triggered evaluation at the four corners: a true condition after a
    true one does not fire, a true condition after a false one does, a
    false condition does not, on the first evaluation or later. *)
Lemma Check_edge_examples :
  Check (H := demoHost) 0 None (edgeEngine 0 false true false) =
    Done tt (set_rulesWithoutCells {[ 0%nat ]} (edgeEngine 0 false true false))
      [EvCall ruleFuncs 1 None; EvNoCells "r"] ∧
  Check (H := demoHost) 0 None (edgeEngine 0 false false false) =
    Done tt (set_rulesWithoutCells {[ 0%nat ]} (edgeEngine 0 false true false))
      [EvCall ruleFuncs 1 None; EvNoCells "r"; EvCall ruleFuncs 2 None] ∧
  Check (H := demoHost) 0 None (edgeEngine 1 true false false) =
    Done tt (set_rulesWithoutCells {[ 0%nat ]} (edgeEngine 1 false false false))
      [EvCall ruleFuncs 1 None; EvNoCells "r"] ∧
  Check (H := demoHost) 0 None (edgeEngine 1 false true false) =
    Done tt (set_rulesWithoutCells {[ 0%nat ]} (edgeEngine 1 false false false))
      [EvCall ruleFuncs 1 None; EvNoCells "r"].
Proof. repeat split; vm_compute; reflexivity. Qed.

(** ** Further properties at concrete engines *)

Lemma demoHost_keeps_registry : hostKeepsRegistry (H := demoHost).
Proof.
  intros f args e Hwf. unfold exec, demoHost.
  do 4 (destruct f as [|f]; [try (split; [exact Hwf | apply keepsRegistry_refl])|]).
  2: split; [exact Hwf | apply keepsRegistry_refl].
  unfold trackCell, modify. destruct (notedCells e) as [noted|]; simpl.
  - split.
    + by apply (wfRegistry_frame (set_notedCells (Some ({[("A", "x")]} ∪ noted)))).
    + split; [done|]. intros nm Hnm. exact Hnm.
  - split; [exact Hwf | apply keepsRegistry_refl].
Qed.

Lemma wfRegistry_NewRuleEngine model : wfRegistry (NewRuleEngine model).
Proof.
  unfold wfRegistry, NewRuleEngine. simpl. split; [constructor|].
  split; [|split].
  - intros nm. rewrite lookup_empty. split; [by intros ?%elem_of_nil | by intros [? ?]].
  - intros nm p Hp. by rewrite lookup_empty in Hp.
  - intros nm1 nm2 p Hp. by rewrite lookup_empty in Hp.
Qed.

Lemma wfRegistry_define args e :
  wfRegistry e → wfRegistry (engineOf (esWbDefineRule args e)).
Proof.
  intros Hwf. destruct (esWbDefineRule_wf args e Hwf) as (ret & e1 & out & -> & Hwf1 & _).
  exact Hwf1.
Qed.

Lemma wfRegistry_threeRules : wfRegistry threeRules.
Proof. do 3 apply wfRegistry_define. apply wfRegistry_NewRuleEngine. Qed.

(** The condition of the level-triggered rule is true on a pass that is
    not its first: the body is called again. *)
Lemma level_triggered_fires_iff_condition_witness :
  ∃ e2,
    heap e2 !! 0%nat =
      Some (mkRule "r" 1 2 [] RULE_TYPE_LEVEL_TRIGGERED false true VNil false) ∧
    Check (H := demoHost) 0 None (levelEngine 0 false true false) =
      after [EvCall ruleFuncs 1 None; EvNoCells "r"]
        ((invokeCallback (H := demoHost) ruleFuncs 2 None ;; mret tt) e2).
Proof.
  exact (level_triggered_fires_iff_condition (H := demoHost) 0 None
           (levelEngine 0 false true false)
           (set_rulesWithoutCells {[ 0%nat ]} (levelEngine 0 false true false))
           _ _ true [EvCall ruleFuncs 1 None; EvNoCells "r"]
           eq_refl eq_refl (or_introl eq_refl) eq_refl eq_refl).
Defined.

(** The condition of the rule at 0 has read [A/x]. *)
Lemma storeRuleTrackedCells_records_reads_witness :
  let e := set_notedCells (Some {[ ("A", "x") ]}) (edgeEngine 0 true false false) in
  ∃ e1 out,
    storeRuleTrackedCells 0 e = Done tt e1 out ∧
    notedCells e1 = None ∧ heap e1 = heap e ∧
    (∀ c : Cell,
       cellToRuleMap e1 !! c =
         if bool_decide (c ∈ ({[ ("A", "x") ]} : gset Cell))
         then Some (default [] (cellToRuleMap e !! c) ++ [0%nat])
         else cellToRuleMap e !! c) ∧
    rulesWithoutCells e1 =
      if bool_decide (({[ ("A", "x") ]} : gset Cell) = ∅)
      then {[ 0%nat ]} ∪ rulesWithoutCells e
      else rulesWithoutCells e.
Proof.
  exact (storeRuleTrackedCells_records_reads 0
           (set_notedCells (Some {[ ("A", "x") ]}) (edgeEngine 0 true false false))
           _ eq_refl).
Defined.

(** The marking for [Weather/Temp1], which holds 25. *)
Lemma markRules_complete_cell_witness :
  ∃ e1,
    markRules (mkCellSpec "Weather" "Temp1") (set_model (weatherModel 25) tempEngine) =
      Done ("Weather", "Temp1") e1 [] ∧
    (shouldCheck <$> heap tempEngine !! 0%nat) = Some false ∧
    (shouldCheck <$> heap e1 !! 0%nat) = Some true.
Proof.
  destruct (markRules_complete_cell (mkCellSpec "Weather" "Temp1")
              (set_model (weatherModel 25) tempEngine) eq_refl)
    as (e1 & H1 & _ & H3).
  exists e1. split; [exact H1|]. split; [reflexivity|].
  rewrite (H3 0%nat). reflexivity.
Defined.

(** The rule at 0 has read [A/x]; when the cell comes in with the value 1,
    the notification marks the rule. *)
Lemma read_cell_marks_rule_later_witness :
  let e := set_notedCells (Some {[ ("A", "x") ]}) (edgeEngine 0 true false false) in
  let e2 := set_model {[ ("A", "x") := mkCellData true (VNum 1) ]}
              (engineOf (storeRuleTrackedCells 0 e)) in
  ∃ e3,
    markRules (mkCellSpec "A" "x") e2 = Done ("A", "x") e3 [] ∧
    heap e3 !! 0%nat =
      Some (mkRule "r" 1 2 [] RULE_TYPE_EDGE_TRIGGERED true false VNil true).
Proof.
  refine (read_cell_marks_rule_later 0 (mkCellSpec "A" "x")
            (set_notedCells (Some {[ ("A", "x") ]}) (edgeEngine 0 true false false))
            (engineOf (storeRuleTrackedCells 0
               (set_notedCells (Some {[ ("A", "x") ]}) (edgeEngine 0 true false false))))
            (set_model {[ ("A", "x") := mkCellData true (VNum 1) ]}
               (engineOf (storeRuleTrackedCells 0
                  (set_notedCells (Some {[ ("A", "x") ]})
                     (edgeEngine 0 true false false)))))
            (mkRule "r" 1 2 [] RULE_TYPE_EDGE_TRIGGERED true false VNil false)
            {[ ("A", "x") ]} []
            eq_refl _ _ _ eq_refl eq_refl).
  - simpl. set_solver.
  - vm_compute. reflexivity.
  - apply indexGrows_same; reflexivity.
Defined.

(** Stopping the periodic timer in slot 1. *)
Lemma esWbStopTimer_running_timer_witness :
  let e1 := set_timers [None; None] (set_stash (mkStash ∅ ∅ ∅) timerEngine) in
  esWbStopTimer [JSNum 1] timerEngine = Done Ret0 e1 [] ∧
  fireTimer (H := demoHost) 1 e1 = Done tt e1 [EvFireUnknownTimer 1] ∧
  esWbStopTimer [JSNum 1] e1 = Done Ret0 e1 [EvStopUnknownTimer 1].
Proof.
  exact (esWbStopTimer_running_timer (H := demoHost) 1 timerEngine
           (mkTimerEntry true 50)
           (conj (Z.le_refl 1) (Zle_bool_imp_le 1 2 eq_refl)) eq_refl).
Defined.

(** A tick of the periodic timer in slot 1. *)
Lemma fireTimer_in_table_witness :
  ∃ e2,
    fireTimer (H := demoHost) 1 timerEngine =
      Done tt e2 [EvCall ruleEngineTimers 1 None] ∧
    (∃ rest, [EvCall ruleEngineTimers 1 None] = EvCall ruleEngineTimers 1 None :: rest) ∧
    e2 = timerEngine.
Proof.
  exact (fireTimer_in_table (H := demoHost) 1 timerEngine timerEngine
           (mkTimerEntry true 50) false [EvCall ruleEngineTimers 1 None]
           (conj (Z.le_refl 1) (Zle_bool_imp_le 1 2 eq_refl)) eq_refl eq_refl
           (conj (Z.le_refl 1) (Zle_bool_imp_le 1 2 eq_refl))).
Defined.

(** The first timer of a new engine: a ticker of 0 ms, and one of 100 ms. *)
Lemma esWbStartTimer_first_slot_free_witness :
  esWbStartTimer (platform := demoPlatform)
    [JSFunc 6%nat; JSNum 0; JSBool true] (NewRuleEngine ∅) =
    Panic "non-positive interval for NewTicker" ∧
  ∃ e1,
    esWbStartTimer (platform := demoPlatform)
      [JSFunc 6%nat; JSNum 100; JSBool true] (NewRuleEngine ∅) =
      Done (Ret1 (JSNum 1)) e1 [] ∧
    timers e1 = [Some (mkTimerEntry true 100)] ∧
    getList ruleEngineTimers (stash e1) !! 1 = Some (JSFunc 6%nat) ∧
    (∀ k, k ≠ 1 → getList ruleEngineTimers (stash e1) !! k =
                  getList ruleEngineTimers (stash (NewRuleEngine ∅)) !! k).
Proof.
  split.
  - exact (proj1 (esWbStartTimer_first_slot_free (platform := demoPlatform)
                    6 0 (JSBool true) (NewRuleEngine ∅) (or_introl eq_refl)) eq_refl).
  - exact (proj2 (esWbStartTimer_first_slot_free (platform := demoPlatform)
                    6 100 (JSBool true) (NewRuleEngine ∅) (or_introl eq_refl)) eq_refl).
Defined.

(** The callback of the one-shot timer in slot 1 calls [setTimeout]. *)
Lemma one_shot_timer_rearm_is_lost_witness :
  ∃ e2,
    fireTimer (H := rearmHost) 1 oneShotEngine =
      Done tt e2 [EvCall ruleEngineTimers 1 None] ∧
    timers e2 = [None] ∧
    getList ruleEngineTimers (stash e2) !! 1 = None ∧
    fireTimer (H := rearmHost) 1 e2 = Done tt e2 [EvFireUnknownTimer 1].
Proof.
  exact (one_shot_timer_rearm_is_lost (H := rearmHost) (platform := demoPlatform)
           oneShotEngine
           (engineOf (esWbStartTimer (platform := demoPlatform)
                        [JSFunc 8%nat; JSNum 100; JSBool false] oneShotEngine))
           (mkTimerEntry false 50) [] 7 8 100 (JSBool false) JSUndefined
           eq_refl eq_refl eq_refl eq_refl eq_refl).
Defined.

(** A definition with [whenChanged] as its only trigger, under the name of
    the registered rule A. *)
Lemma esWbDefineRule_rejected_keeps_rules_witness :
  ∃ e1 ev,
    esWbDefineRule
      [JSStr "A"; JSObject [("whenChanged", JSStr "A/x"); ("then", JSFunc 4%nat)]]
      threeRules = Done DUK_RET_ERROR e1 [ev] ∧
    ruleMap e1 = ruleMap threeRules ∧ ruleList e1 = ruleList threeRules ∧
    timers e1 = timers threeRules ∧ model e1 = model threeRules ∧
    ∀ (p : RulePtr) r, heap threeRules !! p = Some r → heap e1 !! p = Some r.
Proof.
  apply (esWbDefineRule_rejected_keeps_rules
           [JSStr "A"; JSObject [("whenChanged", JSStr "A/x"); ("then", JSFunc 4%nat)]]
           threeRules).
  intros nm def [= <- <-]. reflexivity.
Defined.

(** Defining B again on the registry of A, B and C. *)
Lemma esWbDefineRule_keeps_registry_witness :
  (∀ model, wfRegistry (NewRuleEngine model)) ∧
  ∃ ret e1 out,
    esWbDefineRule [JSStr "B"; asSoonAsDef 0 4] threeRules = Done ret e1 out ∧
    wfRegistry e1 ∧ keepsRegistry threeRules e1.
Proof.
  exact (esWbDefineRule_keeps_registry [JSStr "B"; asSoonAsDef 0 4] threeRules
           wfRegistry_threeRules).
Defined.

(** The first pass over the rules A, B and C, when the check of A has
    come back: B has its rule object at address 1. *)
Lemma RunRules_checks_live_rules_witness :
  let e1 := engineOf (Check (H := demoHost) 0 None threeRules) in
  wfRegistry e1 ∧
  ∃ (p : RulePtr) (r : Rule),
    ruleMap e1 !! "B" = Some p ∧ heap e1 !! p = Some r ∧
    ruleType r ≠ RULE_TYPE_NONE ∧
    RunRules (H := demoHost) None threeRules =
      after ([] ++ [EvCall ruleFuncs 2 None; EvNoCells "A"; EvCall ruleFuncs 1 None])
        ((Check (H := demoHost) p None ;;
          forEach ["C"] (checkByName (H := demoHost) None)) e1).
Proof.
  intros e1.
  refine (RunRules_checks_live_rules (H := demoHost) None threeRules threeRules e1
            None ["A"] "B" ["C"] []
            [EvCall ruleFuncs 2 None; EvNoCells "A"; EvCall ruleFuncs 1 None]
            demoHost_keeps_registry wfRegistry_threeRules eq_refl _ _).
  - vm_compute. reflexivity.
  - vm_compute. reflexivity.
Defined.

(** [spawn] of [ls] with an exit callback and a number as standard input. *)
Lemma esWbSpawn_stores_callback_first_witness :
  ∃ ret e1,
    esWbSpawn [JSArray [JSStr "ls"]; JSFunc 4%nat; JSBool true; JSBool false; JSNum 7]
      (NewRuleEngine ∅) = Done ret e1 [] ∧
    getList processes (stash e1) !! 1 = Some (JSFunc 4%nat) ∧
    callbackIndex e1 = 2 ∧
    ret = (DUK_RET_ERROR, None).
Proof.
  apply (esWbSpawn_stores_callback_first [JSStr "ls"] 4 true false (JSNum 7)
           (NewRuleEngine ∅)).
  discriminate.
Defined.

(** The command of the request with handle 1 has run and printed [x]; the
    exit callback, function 4, comes back. *)
Lemma spawnReturned_calls_back_once_witness :
  let req := mkSpawnRequest ["ls"] true false None 1 in
  let r := mkSpawnResult 0 "x" "" in
  let e := set_stash (mkStash ∅ {[ 1 := JSFunc 4%nat ]} ∅) (NewRuleEngine ∅) in
  (∃ e2,
     spawnReturned (H := demoHost) req (inr r) e =
       Done None e2 [EvCall processes 1 (Some (exitArgs req r))] ∧
     getList processes (stash e2) = delete 1 (getList processes (stash e))) ∧
  exitArgs req r !! "capturedOutput" = Some (VStr "x") ∧
  spawnReturned (H := demoHost) req (inl "no such file") e =
    Done (Some (ExternalCommandFailed "no such file")) e [].
Proof.
  intros req r e.
  destruct (spawnReturned_calls_back_once (H := demoHost) req r "no such file" e e
              false [EvCall processes 1 (Some (exitArgs req r))] eq_refl eq_refl)
    as ((e2 & rest & Hrun & _ & Hgone & _) & _ & _ & Hout & Hfail).
  split; [|split; [exact Hout | exact Hfail]].
  exists e2. split; [exact Hrun | exact Hgone].
Defined.


(** The same two messages with the global scope as the engine leaves it:
    no command is started, the first message is lost and the second
    waits. *)
Lemma sendSMS_without_format_witness :
  let a := Notify.mkSMS "+1" "a" in
  let b := Notify.mkSMS "+2" "b" in
  Notify.run Notify.boundGlobals [Notify.Send a; Notify.Send b]
    (Notify.mkState [] false) 0 [] = Some (Notify.mkState [b] true, 0%nat, []) ∧
  Notify.sendSMS Notify.boundGlobals a (Notify.mkState [] false) =
    (Notify.Threw "ReferenceError", Notify.mkState [] true, []).
Proof.
  intros a b. split; [reflexivity|].
  exact (proj1 (proj2 (sendSMS_without_format Notify.boundGlobals
                         [Notify.Send a; Notify.Send b] (Notify.mkState [b] true)
                         0 [] a eq_refl eq_refl))).
Defined.

(** B defined again, with [asSoonAs]: the new rule at address 3 holds the
    handles 7 and 8; the rule destroyed held 3 and 4. *)
Lemma esWbDefineRule_wires_callbacks_witness :
  ∃ e2 r,
    esWbDefineRule [JSStr "B"; asSoonAsDef 0 4] threeRules = Done Ret0 e2 [] ∧
    ruleMap e2 !! "B" = Some 3%nat ∧
    heap e2 !! 3%nat = Some r ∧
    then_ r = 7 ∧ cond r = 8 ∧ 7 ≠ 8 ∧
    getList ruleFuncs (stash e2) !! 7 = Some (JSFunc 4%nat) ∧
    getList ruleFuncs (stash e2) !! 8 = Some (JSFunc 0%nat).
Proof.
  refine (esWbDefineRule_wires_callbacks "B" (asSoonAsDef 0 4) threeRules false
            eq_refl eq_refl _).
  intros old Hold. vm_compute in Hold. injection Hold as <-.
  eexists. split; [vm_compute; reflexivity|].
  repeat split; intros Heq; vm_compute in Heq; discriminate.
Defined.
